(** * sweetpalma/ml: sentiment notebooks and their publishing workflow

    The repository holds three Jupyter notebooks (logistic regression,
    LSTM, DistilRoBERTa) and one GitHub Actions workflow that publishes
    them.  This development embeds

    - the workflow file as a record, with the trigger filter and the
      concurrency-group scheduler it configures ([Workflow]);
    - the code cells of the notebooks as Python syntax trees, with the
      analyses the properties need: control flow, name resolution,
      exception propagation, the library calls made ([Py], [Notebooks]);
    - the two computations a notebook carries out itself or configures
      directly: the embedding-matrix loop and the padding call
      ([Embedding], [Padding]);
    - what the library calls are given: the pipeline and its search
      grid, the layers of the network, the seeds of the random splits
      ([Search], [Network], [Seeding]).

    The libraries themselves (scikit-learn, Keras, transformers, gensim,
    numpy) are not part of the repository.  Where a property depends on
    what a library does with the arguments it is given, the documented
    behaviour of the call is written out next to the call.  *)

From stdpp Require Import base option list strings gmap.
From Stdlib Require Import ZArith Lia Ascii.

Local Open Scope string_scope.
Local Open Scope list_scope.
Local Open Scope nat_scope.
#[local] Set Warnings "-register-all".

(* ===================================================================== *)
(** * The publishing workflow (src/unnamed/part_000) *)
(* ===================================================================== *)

Module Workflow.

(** ** The workflow file *)

Inductive access := AccessRead | AccessWrite.

Record concurrency := {
  group : string;
  cancel_in_progress : bool;
}.

(** A step either [uses] an action or [run]s a shell command. *)
Record step := {
  step_name : option string;
  step_id : option string;
  step_uses : option string;
  step_run : option string;
  step_with : list (string * string);
}.

(** Keys a job may carry; [job_needs], [job_if] and [job_matrix] are the
    keys that make a job wait, be skipped, or fan out. *)
Record job := {
  job_id : string;
  job_environment : list (string * string);
  job_runs_on : string;
  job_needs : list string;
  job_if : option string;
  job_matrix : list (string * list string);
  job_steps : list step;
}.

Global Instance step_eq_dec : EqDecision step.
Proof. solve_decision. Defined.

Global Instance job_eq_dec : EqDecision job.
Proof. solve_decision. Defined.

Record workflow := {
  wf_name : string;
  on_push_branches : list string;
  on_other_events : list string;
  wf_env : list (string * string);
  wf_permissions : list (string * access);
  wf_concurrency : concurrency;
  wf_jobs : list job;
}.

Definition uses_step (name id : option string) (action : string)
    (w : list (string * string)) : step :=
  {| step_name := name; step_id := id; step_uses := Some action;
     step_run := None; step_with := w |}.

Definition run_step (name : string) (cmd : string) : step :=
  {| step_name := Some name; step_id := None; step_uses := None;
     step_run := Some cmd; step_with := [] |}.

(** jobs.deploy, lines 16-38 *)
Definition deploy : job := {|
  job_id := "deploy";
  job_environment :=
    [("name", "github-pages");
     ("url", "${{ steps.deployment.outputs.page_url }}")];
  job_runs_on := "ubuntu-latest";
  job_needs := [];
  job_if := None;
  job_matrix := [];
  job_steps :=
    [ uses_step None None "actions/checkout@v4" [];
      uses_step (Some "Setup Pages") None "actions/configure-pages@v3" [];
      uses_step None None "actions/setup-node@v4" [("node-version", "18.x")];
      run_step "Install MyST Markdown" "npm install -g mystmd";
      run_step "Build HTML Assets" "myst build --html";
      uses_step (Some "Upload artifact") None
        "actions/upload-pages-artifact@v3" [("path", "./_build/html")];
      uses_step (Some "Deploy to GitHub Pages") (Some "deployment")
        "actions/deploy-pages@v4" [] ];
|}.

(** The whole file, lines 1-38 *)
Definition pages_deploy : workflow := {|
  wf_name := "GitHub Pages Deploy";
  on_push_branches := ["master"];
  on_other_events := [];
  wf_env := [("BASE_URL", "/${{ github.event.repository.name }}")];
  wf_permissions :=
    [("contents", AccessRead); ("pages", AccessWrite);
     ("id-token", AccessWrite)];
  wf_concurrency := {| group := "pages"; cancel_in_progress := false |};
  wf_jobs := [deploy];
|}.

(** ** Triggering *)



(** Characters that give a branch filter a glob meaning. *)
Definition glob_chars : string := "*?+[]!".

Definition is_literal (pat : string) : bool :=
  forallb
    (λ c, negb (existsb (Ascii.eqb c) (String.list_ascii_of_string glob_chars)))
    (String.list_ascii_of_string pat).





(** ** Steps of a job

    The runner executes the steps of a job in the order of the file, each
    one to its end before the next one starts. *)

Inductive step_event :=
| StepStart (i : nat)
| StepEnd (i : nat).

Definition job_trace (j : job) : list step_event :=
  flat_map (λ i, [StepStart i; StepEnd i]) (seq 0 (length (job_steps j))).

(** Steps started and not ended after a sequence of events. *)
Definition step_open (open : list nat) (e : step_event) : list nat :=
  match e with
  | StepStart i => i :: open
  | StepEnd i => filter (λ k, k ≠ i) open
  end.

Definition open_steps (tr : list step_event) : list nat :=
  foldl step_open [] tr.

(** Job instances a run creates: one per job and per matrix combination. *)
Definition job_instances (j : job) : nat :=
  foldr (λ axis n, length axis.2 * n) 1 (job_matrix j).

(** ** The concurrency group

    Runs of the workflow share the group [pages].  A run that is queued
    while another run of the group is in progress waits as pending, and
    takes the place of a run already pending, which is cancelled; with
    [cancel-in-progress: true] the run in progress would be cancelled
    instead.  When the run in progress ends, the pending run starts. *)

Inductive status := Pending | InProgress | Cancelled | Completed.

Global Instance status_eq_dec : EqDecision status.
Proof. solve_decision. Defined.

Record wf_run := {
  run_id : nat;
  run_status : status;
}.

Inductive sched_event :=
| Queued (id : nat)
| Finished (id : nat).

Definition has_status (s : status) (r : wf_run) : bool :=
  bool_decide (run_status r = s).

Definition set_status (p : wf_run → bool) (s : status) (rs : list wf_run)
    : list wf_run :=
  map (λ r, if p r then {| run_id := run_id r; run_status := s |} else r) rs.

Definition new_run (id : nat) (s : status) : wf_run :=
  {| run_id := id; run_status := s |}.

Definition on_queued (c : concurrency) (id : nat) (rs : list wf_run)
    : list wf_run :=
  if existsb (has_status InProgress) rs then
    if cancel_in_progress c
    then set_status (has_status InProgress) Cancelled rs ++ [new_run id InProgress]
    else set_status (has_status Pending) Cancelled rs ++ [new_run id Pending]
  else rs ++ [new_run id InProgress].

Fixpoint start_pending (rs : list wf_run) : list wf_run :=
  match rs with
  | [] => []
  | r :: rs' =>
      if has_status Pending r
      then new_run (run_id r) InProgress :: rs'
      else r :: start_pending rs'
  end.

Definition finishing (id : nat) (r : wf_run) : bool :=
  Nat.eqb (run_id r) id && has_status InProgress r.

Definition on_finished (id : nat) (rs : list wf_run) : list wf_run :=
  if existsb (finishing id) rs
  then start_pending (set_status (finishing id) Completed rs)
  else rs.

Definition sched_step (c : concurrency) (rs : list wf_run) (e : sched_event)
    : list wf_run :=
  match e with
  | Queued id => on_queued c id rs
  | Finished id => on_finished id rs
  end.

Definition schedule (c : concurrency) (evs : list sched_event) : list wf_run :=
  foldl (sched_step c) [] evs.

Definition in_progress (rs : list wf_run) : nat :=
  length (filter (λ r, run_status r = InProgress) rs).

End Workflow.

(* ===================================================================== *)
(** * Python syntax of the notebook cells *)
(* ===================================================================== *)

Module Py.

(** ** Expressions and statements

    The fragment of Python the cells are written in, with the
    constructs the properties speak of ([if], [while], [try], the
    conditional expression) whether a cell uses them or not. *)

Inductive expr :=
| EName (x : string)
| EInt (n : Z)
| EFloat (lit : string)               (* a decimal literal, as written *)
| EStr (s : string)
| EBool (b : bool)
| EAttr (e : expr) (attr : string)    (* e.attr *)
| ESubscript (e idx : expr)           (* e[idx] *)
| ECall (f : expr) (args : list expr) (kwargs : list (string * expr))
| EList (es : list expr)
| ETuple (es : list expr)
| EDict (items : list (expr * expr))
| EUnOp (op : string) (e : expr)
| EBinOp (op : string) (l r : expr)
| ECompare (op : string) (l r : expr)
| EIfExp (cond a b : expr).           (* a if cond else b *)

Inductive simple :=
| Magic (line : string)               (* IPython magic: %env, %%capture *)
| Import (module : string) (asname : option string)
| FromImport (module : string) (names : list (string * option string))
| Assign (target value : expr)
| Expr (e : expr)
| Return (e : expr).

Inductive stmt :=
| Simple (s : simple)
| SDef (name : string) (params : list string) (body : list stmt)
| SFor (target iter : expr) (body : list stmt)
| SWhile (cond : expr) (body : list stmt)
| SIf (cond : expr) (body orelse : list stmt)
| SWith (ctx : expr) (asname : option string) (body : list stmt)
| STry (body : list stmt) (filter : option string) (handler : list stmt).

Inductive cell :=
| Markdown
| Code (execution_count : nat) (body : list stmt).

Record notebook := {
  nb_path : string;
  nb_cells : list cell;
}.

Definition cell_code (c : cell) : list stmt :=
  match c with
  | Markdown => []
  | Code _ body => body
  end.

(** The statements of a notebook in the order a top-to-bottom run
    executes them. *)
Definition program (nb : notebook) : list stmt :=
  flat_map cell_code (nb_cells nb).

(** Shorthands used to write the cells down. *)
Definition call (f : expr) (args : list expr) : expr := ECall f args [].
Definition method (obj : expr) (m : string) (args : list expr) : expr :=
  ECall (EAttr obj m) args [].
Definition from_import (module : string) (names : list string) : stmt :=
  Simple (FromImport module (map (λ n, (n, None)) names)).
Definition assign (target value : expr) : stmt := Simple (Assign target value).
Definition do (e : expr) : stmt := Simple (Expr e).

(** An induction principle that reaches the statements of nested blocks. *)
Section stmt_induction.
Variable P : stmt → Prop.
Hypothesis Hsimple : ∀ s, P (Simple s).
Hypothesis Hdef : ∀ n ps body, Forall P body → P (SDef n ps body).
Hypothesis Hfor : ∀ t i body, Forall P body → P (SFor t i body).
Hypothesis Hwhile : ∀ c body, Forall P body → P (SWhile c body).
Hypothesis Hif : ∀ c b1 b2, Forall P b1 → Forall P b2 → P (SIf c b1 b2).
Hypothesis Hwith : ∀ c a body, Forall P body → P (SWith c a body).
Hypothesis Htry : ∀ b f h, Forall P b → Forall P h → P (STry b f h).

Fixpoint stmt_block_ind (s : stmt) : P s :=
  let block :=
    fix block (b : list stmt) : Forall P b :=
      match b with
      | [] => List.Forall_nil P
      | s' :: b' => List.Forall_cons P s' b' (stmt_block_ind s') (block b')
      end in
  match s with
  | Simple s => Hsimple s
  | SDef n ps body => Hdef n ps body (block body)
  | SFor t i body => Hfor t i body (block body)
  | SWhile c body => Hwhile c body (block body)
  | SIf c b1 b2 => Hif c b1 b2 (block b1) (block b2)
  | SWith c a body => Hwith c a body (block body)
  | STry b f h => Htry b f h (block b) (block h)
  end.
End stmt_induction.

(** ** Control flow *)

Fixpoint expr_conditional (e : expr) : bool :=
  match e with
  | EName _ | EInt _ | EFloat _ | EStr _ | EBool _ => false
  | EAttr e _ | EUnOp _ e => expr_conditional e
  | ESubscript e i => expr_conditional e || expr_conditional i
  | ECall f args kwargs =>
      expr_conditional f || existsb expr_conditional args
      || existsb (λ kv, expr_conditional kv.2) kwargs
  | EList es | ETuple es => existsb expr_conditional es
  | EDict items =>
      existsb (λ kv, expr_conditional kv.1 || expr_conditional kv.2) items
  | EBinOp _ l r | ECompare _ l r => expr_conditional l || expr_conditional r
  | EIfExp _ _ _ => true
  end.

Definition simple_exprs (s : simple) : list expr :=
  match s with
  | Magic _ | Import _ _ | FromImport _ _ => []
  | Assign t v => [v; t]
  | Expr e | Return e => [e]
  end.

(** A statement is conditional when whether some part of it runs depends
    on a value: [if], [while], [try], or a conditional expression. *)
Fixpoint conditional (s : stmt) : bool :=
  match s with
  | Simple s => existsb expr_conditional (simple_exprs s)
  | SDef _ _ body => existsb conditional body
  | SFor t i body =>
      expr_conditional t || expr_conditional i || existsb conditional body
  | SWhile _ _ | SIf _ _ _ | STry _ _ _ => true
  | SWith c _ body => expr_conditional c || existsb conditional body
  end.

Fixpoint loops (s : stmt) : nat :=
  match s with
  | Simple _ => 0
  | SDef _ _ body | SWith _ _ body => sum_list (map loops body)
  | SFor _ _ body | SWhile _ body => S (sum_list (map loops body))
  | SIf _ b1 b2 => sum_list (map loops b1) + sum_list (map loops b2)
  | STry b _ h => sum_list (map loops b) + sum_list (map loops h)
  end.

Fixpoint ifs (s : stmt) : nat :=
  match s with
  | Simple _ => 0
  | SDef _ _ body | SWith _ _ body | SFor _ _ body | SWhile _ body =>
      sum_list (map ifs body)
  | SIf _ b1 b2 => S (sum_list (map ifs b1) + sum_list (map ifs b2))
  | STry b _ h => sum_list (map ifs b) + sum_list (map ifs h)
  end.

(** The cell magic [%%capture] of IPython, with whatever options: the
    magic is handed the rest of its cell and runs it through
    [run_cell], which shows the traceback of an exception the code
    raises and returns; nothing is raised again.  A cell that opens with
    it is a cell inside a handler that catches everything. *)
Definition capturing (line : string) : bool := String.prefix "%%capture" line.

(** No exception handler anywhere in the statement: no [try], and no
    [%%capture]. *)
Fixpoint handler_free (s : stmt) : bool :=
  match s with
  | Simple (Magic line) => negb (capturing line)
  | Simple _ => true
  | SDef _ _ body | SFor _ _ body | SWhile _ body | SWith _ _ body =>
      forallb handler_free body
  | SIf _ b1 b2 => forallb handler_free b1 && forallb handler_free b2
  | STry _ _ _ => false
  end.

(** No [while] loop anywhere: the construct a retry loop is written
    with. *)
Fixpoint while_free (s : stmt) : bool :=
  match s with
  | Simple _ => true
  | SDef _ _ body | SFor _ _ body | SWith _ _ body => forallb while_free body
  | SWhile _ _ => false
  | SIf _ b1 b2 => forallb while_free b1 && forallb while_free b2
  | STry b _ h => forallb while_free b && forallb while_free h
  end.

(** ** Names

    Which names a run can rely on at each statement: those bound by an
    earlier import, assignment, definition or [with], and the builtins
    of the interpreter. *)

Fixpoint expr_names (e : expr) : list string :=
  match e with
  | EName x => [x]
  | EInt _ | EFloat _ | EStr _ | EBool _ => []
  | EAttr e _ | EUnOp _ e => expr_names e
  | ESubscript e i => expr_names e ++ expr_names i
  | ECall f args kwargs =>
      expr_names f ++ flat_map expr_names args
      ++ flat_map (λ kv, expr_names kv.2) kwargs
  | EList es | ETuple es => flat_map expr_names es
  | EDict items => flat_map (λ kv, expr_names kv.1 ++ expr_names kv.2) items
  | EBinOp _ l r | ECompare _ l r => expr_names l ++ expr_names r
  | EIfExp c a b => expr_names c ++ expr_names a ++ expr_names b
  end.

(** Names an assignment target binds, and names it reads: [a, b = ...]
    binds [a] and [b]; [d['k'] = ...] and [o.f = ...] read [d] and [o]. *)
Fixpoint target_binds (t : expr) : list string :=
  match t with
  | EName x => [x]
  | ETuple es | EList es => flat_map target_binds es
  | _ => []
  end.

Fixpoint target_reads (t : expr) : list string :=
  match t with
  | EName _ => []
  | ETuple es | EList es => flat_map target_reads es
  | _ => expr_names t
  end.

(** [import a.b] binds [a]. *)
Fixpoint top_package (module : string) : string :=
  match module with
  | EmptyString => EmptyString
  | String c rest =>
      if Ascii.eqb c "."%char then EmptyString else String c (top_package rest)
  end.

Definition simple_binds (s : simple) : list string :=
  match s with
  | Magic _ | Expr _ | Return _ => []
  | Import m None => [top_package m]
  | Import _ (Some a) => [a]
  | FromImport _ names => map (λ na, default na.1 na.2) names
  | Assign t _ => target_binds t
  end.

Definition simple_reads (s : simple) : list string :=
  match s with
  | Magic _ | Import _ _ | FromImport _ _ => []
  | Assign t v => expr_names v ++ target_reads t
  | Expr e | Return e => expr_names e
  end.

(** Builtins of Python, and [display], which IPython adds to them. *)
Definition builtins : list string :=
  ["abs"; "all"; "any"; "bool"; "dict"; "enumerate"; "filter"; "float";
   "int"; "isinstance"; "len"; "list"; "map"; "max"; "min"; "open";
   "print"; "range"; "set"; "sorted"; "str"; "sum"; "tuple"; "type"; "zip";
   "display"; "get_ipython"].

Definition unresolved (scope reads : list string) : list string :=
  filter (λ x, (x ∉ scope) ∧ (x ∉ builtins)) reads.

(** [check s scope] gives the names [s] reads that are bound neither in
    [scope] nor as builtins, and the names certainly bound once [s] has
    run.  A loop body may run zero times and a [try] body may stop early,
    so what they bind is not relied on afterwards; after an [if], what
    both branches bind is. *)
Fixpoint check (s : stmt) (scope : list string) : list string * list string :=
  let block :=
    fix block (b : list stmt) (scope : list string) :=
      match b with
      | [] => ([], scope)
      | s' :: b' =>
          let '(u1, scope1) := check s' scope in
          let '(u2, scope2) := block b' scope1 in
          (u1 ++ u2, scope2)
      end in
  match s with
  | Simple s => (unresolved scope (simple_reads s), simple_binds s ++ scope)
  | SDef name params body =>
      ((block body (params ++ name :: scope)).1, name :: scope)
  | SFor t i body =>
      (unresolved scope (expr_names i ++ target_reads t)
       ++ (block body (target_binds t ++ scope)).1, scope)
  | SWhile c body =>
      (unresolved scope (expr_names c) ++ (block body scope).1, scope)
  | SIf c b1 b2 =>
      let '(u1, scope1) := block b1 scope in
      let '(u2, scope2) := block b2 scope in
      (unresolved scope (expr_names c) ++ u1 ++ u2,
       filter (λ x, x ∈ scope2) scope1)
  | SWith c a body =>
      let '(u, scope') := block body (option_list a ++ scope) in
      (unresolved scope (expr_names c) ++ u, scope')
  | STry b _ h =>
      ((block b scope).1 ++ (block h scope).1, scope)
  end.

Fixpoint check_block (b : list stmt) (scope : list string)
    : list string * list string :=
  match b with
  | [] => ([], scope)
  | s :: b' =>
      let '(u1, scope1) := check s scope in
      let '(u2, scope2) := check_block b' scope1 in
      (u1 ++ u2, scope2)
  end.

(** Names a fresh interpreter cannot resolve when it runs the notebook
    from its first cell to its last. *)
Definition undefined_names (nb : notebook) : list string :=
  (check_block (program nb) []).1.

(** ** Exceptions

    How a raised exception travels through the statements.  What the
    libraries do is left open: a [world] says which evaluation raises,
    how often a loop body runs and which way a condition goes.  Each
    simple statement, loop header, condition and [with] header is one
    evaluation; the trace records, for every evaluation made, what it
    raised.  A [def] is one evaluation: the body of the function runs
    within the statements that call it.  A [with] block hands on what
    its body raises, as the context manager of the notebooks
    ([tensorflow.device]) does.  A magic line is one evaluation too (of
    the magic itself: [%env] sets a variable, [%%capture] reads its
    options and redirects the output); what [%%capture] does to the
    cell below it is part of how a cell is run, [exec_cell]. *)

Definition exn := string.

Inductive outcome :=
| Normal
| Raised (e : exn).

Record world := {
  raises : nat → option exn;
  iterations : nat → nat;
  truth : nat → bool;
}.

Record run_state := {
  clock : nat;
  trace : list (option exn);
}.

Definition tick (w : world) (st : run_state) : run_state * outcome :=
  let r := raises w (clock st) in
  ({| clock := S (clock st); trace := trace st ++ [r] |},
   match r with None => Normal | Some e => Raised e end).

(** [bare except:] catches everything, [except C:] the exceptions of
    class [C]. *)
Definition catches (filter : option string) (e : exn) : bool :=
  match filter with
  | None => true
  | Some cls => String.eqb cls e
  end.

Definition and_then (f g : run_state → run_state * outcome)
    (st : run_state) : run_state * outcome :=
  match f st with
  | (st1, Normal) => g st1
  | r => r
  end.

Fixpoint iterate (n : nat) (f : run_state → run_state * outcome)
    (st : run_state) : run_state * outcome :=
  match n with
  | 0 => (st, Normal)
  | S n' => and_then f (iterate n' f) st
  end.

Fixpoint exec (w : world) (s : stmt) (st : run_state) : run_state * outcome :=
  let block :=
    fix block (b : list stmt) (st : run_state) : run_state * outcome :=
      match b with
      | [] => (st, Normal)
      | s' :: b' => and_then (exec w s') (block b') st
      end in
  match s with
  | Simple _ | SDef _ _ _ => tick w st
  | SFor _ _ body =>
      and_then (tick w) (iterate (iterations w (clock st)) (block body)) st
  | SWhile _ body =>
      and_then
        (iterate (iterations w (clock st)) (and_then (tick w) (block body)))
        (tick w) st
  | SIf _ b1 b2 =>
      and_then (tick w) (if truth w (clock st) then block b1 else block b2) st
  | SWith _ _ body => and_then (tick w) (block body) st
  | STry b filter h =>
      match block b st with
      | (st1, Raised e) => if catches filter e then block h st1 else (st1, Raised e)
      | r => r
      end
  end.

Fixpoint exec_block (w : world) (b : list stmt) (st : run_state)
    : run_state * outcome :=
  match b with
  | [] => (st, Normal)
  | s :: b' => and_then (exec w s) (exec_block w b') st
  end.

Definition start : run_state := {| clock := 0; trace := [] |}.

(** The outcome of a cell body run by [run_cell]: the evaluations made
    stay made, and what was raised is not handed on. *)
Definition swallow (f : run_state → run_state * outcome)
    (st : run_state) : run_state * outcome :=
  ((f st).1, Normal).

(** A cell is run statement by statement, and an exception ends it; a
    cell under [%%capture] is run by the magic, so that an exception
    raised below the magic line ends the cell without being the outcome
    of the cell. *)
Definition exec_cell (w : world) (c : cell) (st : run_state)
    : run_state * outcome :=
  match cell_code c with
  | Simple (Magic line) :: body =>
      if capturing line
      then and_then (tick w) (swallow (exec_block w body)) st
      else exec_block w (cell_code c) st
  | code => exec_block w code st
  end.

(** The cells in their order; a cell that ends in an exception ends the
    run. *)
Fixpoint exec_cells (w : world) (cells : list cell) (st : run_state)
    : run_state * outcome :=
  match cells with
  | [] => (st, Normal)
  | c :: rest => and_then (exec_cell w c) (exec_cells w rest) st
  end.

(** A top-to-bottom run of a notebook in a world. *)
Definition run (w : world) (nb : notebook) : run_state * outcome :=
  exec_cells w (nb_cells nb) start.






(** The statements of a notebook that are or hold a handler. *)
Definition handlers (nb : notebook) : list stmt :=
  List.filter (λ s, negb (handler_free s)) (program nb).




(** A statement is straight-line when it has neither a conditional part
    nor a loop. *)
Definition straight (s : stmt) : bool :=
  negb (conditional s) && Nat.eqb (loops s) 0.

(** Two worlds that agree on what raises. *)
Definition same_raises (w w' : world) : Prop :=
  ∀ k, raises w k = raises w' k.

(** ** Library calls

    What a run asks of the libraries, in the order it asks: the calls
    made, each with the expressions the variables around it were last
    bound to. *)

(** The calls an expression makes, in evaluation order: callee and
    arguments before the call itself. *)
Fixpoint calls_in (e : expr) : list expr :=
  match e with
  | EName _ | EInt _ | EFloat _ | EStr _ | EBool _ => []
  | EAttr e' _ | EUnOp _ e' => calls_in e'
  | ESubscript a i => calls_in a ++ calls_in i
  | ECall f args kwargs =>
      calls_in f ++ flat_map calls_in args
      ++ flat_map (λ kv, calls_in kv.2) kwargs ++ [e]
  | EList es | ETuple es => flat_map calls_in es
  | EDict items => flat_map (λ kv, calls_in kv.1 ++ calls_in kv.2) items
  | EBinOp _ l r | ECompare _ l r => calls_in l ++ calls_in r
  | EIfExp c a b => calls_in c ++ calls_in a ++ calls_in b
  end.

(** [a.b.c] as the path [a; b; c]. *)
Fixpoint dotted (e : expr) : option (list string) :=
  match e with
  | EName x => Some [x]
  | EAttr e' a => (λ p, p ++ [a]) <$> dotted e'
  | _ => None
  end.

Definition callee (c : expr) : option (list string) :=
  match c with
  | ECall f _ _ => dotted f
  | _ => None
  end.

Definition call_args (c : expr) : list expr :=
  match c with
  | ECall _ args _ => args
  | _ => []
  end.

Definition call_kwargs (c : expr) : list (string * expr) :=
  match c with
  | ECall _ _ kwargs => kwargs
  | _ => []
  end.

Definition lookup_kw (k : string) (kwargs : list (string * expr)) : option expr :=
  snd <$> find (λ kv, String.eqb kv.1 k) kwargs.

Definition kwarg (k : string) (c : expr) : option expr :=
  lookup_kw k (call_kwargs c).

(** Every name a statement may bind, nested blocks included. *)
Fixpoint assigned (s : stmt) : list string :=
  match s with
  | Simple s => simple_binds s
  | SDef name _ _ => [name]
  | SFor t _ body => target_binds t ++ flat_map assigned body
  | SWhile _ body => flat_map assigned body
  | SIf _ b1 b2 => flat_map assigned b1 ++ flat_map assigned b2
  | SWith _ a body => option_list a ++ flat_map assigned body
  | STry b _ h => flat_map assigned b ++ flat_map assigned h
  end.

Definition forget (xs : list string) (ρ : gmap string expr) : gmap string expr :=
  foldr delete ρ xs.

(** [x = e] binds [x] to [e]; any other binding form leaves the names
    it binds without a known expression. *)
Definition simple_bind (s : simple) (ρ : gmap string expr) : gmap string expr :=
  match s with
  | Assign (EName x) val => <[x := val]> ρ
  | _ => forget (simple_binds s) ρ
  end.

(** The simple statements in program order, each with the bindings in
    force before it; the header of a compound statement counts as the
    evaluation of its expression.  Names bound under a loop, a branch or
    a [try] have no known expression inside it or after it. *)
Fixpoint steps (s : stmt) (ρ : gmap string expr)
    : list (gmap string expr * simple) * gmap string expr :=
  let block :=
    fix block (b : list stmt) (ρ : gmap string expr) :=
      match b with
      | [] => ([], ρ)
      | s' :: b' =>
          let '(l1, ρ1) := steps s' ρ in
          let '(l2, ρ2) := block b' ρ1 in
          (l1 ++ l2, ρ2)
      end in
  match s with
  | Simple s => ([(ρ, s)], simple_bind s ρ)
  | SDef name params body =>
      ((block body (forget (params ++ flat_map assigned body) ρ)).1,
       delete name ρ)
  | SFor _ i body =>
      let ρ' := forget (assigned s) ρ in
      ((ρ, Expr i) :: (block body ρ').1, ρ')
  | SWhile c body =>
      let ρ' := forget (assigned s) ρ in
      ((ρ', Expr c) :: (block body ρ').1, ρ')
  | SIf c b1 b2 =>
      ((ρ, Expr c) :: (block b1 ρ).1 ++ (block b2 ρ).1, forget (assigned s) ρ)
  | SWith c a body =>
      let '(l, ρ') := block body (forget (option_list a) ρ) in
      ((ρ, Expr c) :: l, ρ')
  | STry b _ h =>
      let ρ' := forget (assigned s) ρ in
      ((block b ρ').1 ++ (block h ρ').1, ρ')
  end.

Fixpoint steps_block (b : list stmt) (ρ : gmap string expr)
    : list (gmap string expr * simple) * gmap string expr :=
  match b with
  | [] => ([], ρ)
  | s :: b' =>
      let '(l1, ρ1) := steps s ρ in
      let '(l2, ρ2) := steps_block b' ρ1 in
      (l1 ++ l2, ρ2)
  end.

Definition nb_steps (nb : notebook) : list (gmap string expr * simple) :=
  (steps_block (program nb) ∅).1.

(** The calls of a notebook, in order, each with its bindings. *)
Definition calls (nb : notebook) : list (gmap string expr * expr) :=
  flat_map
    (λ step, map (pair step.1) (flat_map calls_in (simple_exprs step.2)))
    (nb_steps nb).

Definition calls_to (path : list string) (nb : notebook)
    : list (gmap string expr * expr) :=
  filter (λ c, callee c.2 = Some path) (calls nb).

(** A name stands for the expression it is bound to, also as an element
    of a list or tuple display. *)
Fixpoint resolve (ρ : gmap string expr) (e : expr) : expr :=
  match e with
  | EName x => default e (ρ !! x)
  | EList es => EList (map (resolve ρ) es)
  | ETuple es => ETuple (map (resolve ρ) es)
  | _ => e
  end.

(** The module a name is imported from. *)
Definition import_of (x : string) (s : simple) : option string :=
  match s with
  | FromImport m names =>
      if existsb (λ na, String.eqb (default na.1 na.2) x) names
      then Some m else None
  | Import m a =>
      if String.eqb (default (top_package m) a) x then Some m else None
  | _ => None
  end.

Definition imported_from (x : string) (nb : notebook) : list string :=
  omap (λ step, import_of x step.2) (nb_steps nb).

(** What a notebook does to one of its objects. *)
Inductive use :=
| Bound (value : expr)                          (* obj = value *)
| AttrSet (path : list string) (value : expr)   (* obj.path = value *)
| MethodCall (path : list string) (args : list expr)
    (kwargs : list (string * expr)).            (* obj.path(args) *)

Definition under (obj : string) (p : option (list string))
    : option (list string) :=
  match p with
  | Some (o :: rest) => if String.eqb o obj then Some rest else None
  | _ => None
  end.

Definition method_use (obj : string) (ρ : gmap string expr) (c : expr)
    : option use :=
  match under obj (callee c) with
  | Some (m :: path) =>
      Some (MethodCall (m :: path) (map (resolve ρ) (call_args c))
              (map (λ kv, (kv.1, resolve ρ kv.2)) (call_kwargs c)))
  | _ => None
  end.

Definition store_use (obj : string) (s : simple) : option use :=
  match s with
  | Assign t val =>
      match under obj (dotted t) with
      | Some [] => Some (Bound val)
      | Some path => Some (AttrSet path val)
      | None => None
      end
  | _ => None
  end.

Definition step_uses (obj : string) (step : gmap string expr * simple)
    : list use :=
  omap (method_use obj step.1) (flat_map calls_in (simple_exprs step.2))
  ++ option_list (store_use obj step.2).

Definition uses (obj : string) (nb : notebook) : list use :=
  flat_map (step_uses obj) (nb_steps nb).

(** How often a notebook names a variable, reading or binding it; when
    this is the number of uses, nothing else touches the object under
    that name. *)
Definition mentions (x : string) (nb : notebook) : nat :=
  length
    (filter (λ y, y = x)
       (flat_map (λ step, simple_reads step.2 ++ simple_binds step.2)
          (nb_steps nb))).

(** The uses that reach into [obj.config], by the path below it. *)
Definition config_use (u : use) : option (list string) :=
  match u with
  | AttrSet ("config" :: path) _ => Some path
  | MethodCall ("config" :: path) _ _ => Some path
  | _ => None
  end.

(** The uses in brief: a binding, a store, or the method called. *)
Definition use_kind (u : use) : string :=
  match u with
  | Bound _ => "="
  | AttrSet _ _ => ".="
  | MethodCall path _ _ => default "" (last path)
  end.

(** The configuration of an object after the notebook's assignments to
    [obj.config.field], starting from the configuration [cfg] it was
    loaded with. *)
Definition config_set (cfg : gmap string expr) (u : use) : gmap string expr :=
  match u with
  | AttrSet ["config"; field] val => <[field := val]> cfg
  | _ => cfg
  end.

Definition config_after (obj : string) (nb : notebook)
    (cfg : gmap string expr) : gmap string expr :=
  foldl config_set cfg (uses obj nb).

(** ** Concurrency

    The cells have no [async] and no [await] (the syntax above has no
    place for them).  What is left for a notebook to run things at the
    same time is to import a module that starts threads, processes or
    coroutines, or to ask a library call for workers by keyword. *)

Definition concurrency_modules : list string :=
  ["threading"; "_thread"; "multiprocessing"; "concurrent"; "asyncio";
   "subprocess"; "joblib"].

Definition imported_module (s : simple) : option string :=
  match s with
  | Import m _ | FromImport m _ => Some m
  | _ => None
  end.

Definition concurrent_import (s : simple) : bool :=
  match imported_module s with
  | Some m => bool_decide (top_package m ∈ concurrency_modules)
  | None => false
  end.

Definition concurrent_imports (nb : notebook) : list simple :=
  List.filter concurrent_import (snd <$> nb_steps nb).

Definition parallel_keywords : list string :=
  ["n_jobs"; "workers"; "max_workers"; "num_workers"; "num_proc";
   "use_multiprocessing"].

(** The calls that pass one of these keywords. *)
Definition parallel_requests (nb : notebook) : list expr :=
  List.filter
    (λ c, existsb (λ kv, bool_decide (kv.1 ∈ parallel_keywords)) (call_kwargs c))
    (snd <$> calls nb).

End Py.

(* ===================================================================== *)
(** * The notebooks *)
(* ===================================================================== *)

Module Notebooks.
Import Py.

(** A variable of the notebook. *)
Local Abbreviation v := EName.

(** ** Logistic regression
    (second document of src/sentiment/04-lstm.ipynb, from line 519) *)

Definition param_grid : expr :=
  EDict
    [ (EStr "classifier__C", EList [EFloat "0.1"; EInt 1; EInt 10]);
      (EStr "vectorizer__ngram_range",
       EList [ETuple [EInt 1; EInt 1]; ETuple [EInt 1; EInt 2]]);
      (EStr "vectorizer__max_df",
       EList [EFloat "0.85"; EFloat "0.90"; EFloat "0.95"; EFloat "1.0"]);
      (EStr "vectorizer__min_df", EList [EInt 1; EInt 2; EInt 3; EInt 5]) ].

Definition logreg : notebook := {|
  nb_path := "sentiment/logistic-regression";
  nb_cells := [
    Markdown; Markdown;
    Code 1 [
      from_import "datasets" ["load_dataset"];
      assign (v "ds")
        (ECall (v "load_dataset") [EStr "stanfordnlp/imdb"]
           [("split", EStr "train+test")]);
      assign (ETuple [v "train"; v "test"])
        (method
           (ECall (EAttr (v "ds") "train_test_split") []
              [("test_size", EFloat "0.2"); ("seed", EInt 0)])
           "values" []);
      do (call (v "display") [method (v "train") "to_pandas" []]);
      assign (v "x_train") (ESubscript (v "train") (EStr "text"));
      assign (v "y_train") (ESubscript (v "train") (EStr "label"));
      assign (v "x_test") (ESubscript (v "test") (EStr "text"));
      assign (v "y_test") (ESubscript (v "test") (EStr "label")) ];
    Markdown;
    Code 2 [
      from_import "sklearn.feature_extraction.text" ["CountVectorizer"];
      assign (v "vectorizer") (call (v "CountVectorizer") []) ];
    Markdown;
    Code 3 [
      assign (v "example_vector")
        (method
           (method (v "vectorizer") "fit_transform"
              [EList [EStr "Hello World! Hello!"; EStr "Bye World"]])
           "toarray" []);
      do (call (v "display")
            [method (v "vectorizer") "get_feature_names_out" [];
             (v "example_vector")]) ];
    Markdown;
    Code 4 [
      from_import "sklearn.preprocessing" ["StandardScaler"];
      assign (v "scaler")
        (ECall (v "StandardScaler") [] [("with_mean", EBool false)]) ];
    Markdown;
    Code 5 [
      from_import "sklearn.pipeline" ["Pipeline"];
      from_import "sklearn.linear_model" ["LogisticRegression"];
      assign (v "classifier") (call (v "LogisticRegression") []);
      assign (v "pipeline")
        (call (v "Pipeline")
           [EList [ETuple [EStr "vectorizer"; (v "vectorizer")];
                   ETuple [EStr "scaler"; (v "scaler")];
                   ETuple [EStr "classifier"; (v "classifier")]]]) ];
    Markdown;
    Code 6 [ assign (v "param_grid") param_grid ];
    Markdown;
    Code 7 [
      Simple (Magic "%%capture --no-stdout");
      from_import "joblib" ["parallel_backend"];
      from_import "sklearn.model_selection" ["RandomizedSearchCV"];
      assign (v "cv")
        (ECall (v "RandomizedSearchCV") [v "pipeline"; v "param_grid"]
           [("random_state", EInt 0); ("n_jobs", EUnOp "-" (EInt 1));
            ("verbose", EInt 3)]);
      do (method (v "cv") "fit" [v "x_train"; v "y_train"]) ];
    Markdown;
    Code 8 [
      from_import "sklearn.metrics" ["classification_report"];
      assign (v "prediction")
        (method (EAttr (v "cv") "best_estimator_") "predict" [v "x_test"]);
      do (call (v "print")
            [ECall (v "classification_report") [v "y_test"; v "prediction"]
               [("target_names",
                 EAttr (ESubscript (EAttr (v "ds") "features") (EStr "label"))
                   "names")]]) ];
    Code 9 [
      from_import "pandas" ["DataFrame"];
      assign (v "best_params_table")
        (method (v "DataFrame") "from_dict"
           [method (EAttr (v "cv") "best_params_") "items" []]);
      do (call (v "display")
            [ECall
               (EAttr
                  (ECall (EAttr (EAttr (v "best_params_table") "style") "hide")
                     [] [("axis", EInt 0)])
                  "hide")
               [] [("axis", EInt 1)]]) ];
    Markdown ];
|}.

(** ** LSTM (first document of src/sentiment/04-lstm.ipynb) *)

(** Cell 11, lines 302-308: the embedding matrix.  Its loop is the one
    compound statement of the notebook. *)
Definition embedding_loop : stmt :=
  SFor (ETuple [v "word"; v "index"])
    (method (EAttr (v "tokenizer") "word_index") "items" [])
    [ SIf (ECompare "in" (v "word") (v "wv"))
        [ assign (ESubscript (v "embedding_matrix") (v "index"))
            (method (v "wv") "get_vector" [v "word"]) ]
        [ assign (ESubscript (v "embedding_matrix") (v "index"))
            (method (v "np") "zeros" [EAttr (v "wv") "vector_size"]) ] ].

Definition embedding_cell : list stmt := [
  assign (v "embedding_matrix_shape")
    (ETuple
       [EBinOp "+"
          (call (v "len") [EAttr (v "tokenizer") "word_index"]) (EInt 1);
        EAttr (v "wv") "vector_size"]);
  assign (v "embedding_matrix")
    (ECall (EAttr (v "np") "zeros") []
       [("shape", v "embedding_matrix_shape")]);
  embedding_loop ].

(** Cell 13, lines 332-345: the network. *)
Definition model_cell : list stmt := [
  from_import "tensorflow.keras" ["layers"; "Sequential"];
  assign (v "num_classes") (call (v "len") [EAttr (v "encoder") "classes_"]);
  assign (v "model")
    (call (v "Sequential")
       [EList
          [ ECall (EAttr (v "layers") "Embedding") []
              [("weights", EList [v "embedding_matrix"]);
               ("input_dim", ESubscript (v "embedding_matrix_shape") (EInt 0));
               ("output_dim", ESubscript (v "embedding_matrix_shape") (EInt 1));
               ("trainable", EBool true);
               ("mask_zero", EBool true)];
            ECall (EAttr (v "layers") "LSTM") [EInt 128]
              [("dropout", EFloat "0.2"); ("recurrent_dropout", EFloat "0.2")];
            call (EAttr (v "layers") "Dropout") [EFloat "0.2"];
            ECall (EAttr (v "layers") "Dense") [v "num_classes"]
              [("activation", EStr "softmax")] ]]) ].

Definition lstm : notebook := {|
  nb_path := "sentiment/04-lstm.ipynb";
  nb_cells := [
    Markdown; Markdown;
    Code 32 [
      Simple (Magic "%env PYTHONUNBUFFERED=1");
      Simple (Import "kagglehub" None);
      assign (v "df")
        (ECall (EAttr (v "kagglehub") "dataset_load")
           [EAttr (EAttr (v "kagglehub") "KaggleDatasetAdapter") "PANDAS";
            EStr "jp797498e/twitter-entity-sentiment-analysis";
            EStr "twitter_training.csv"]
           [("pandas_kwargs",
             EDict [(EStr "encoding", EStr "ISO-8859-1")])]);
      assign (v "df")
        (ESubscript (v "df")
           (ESubscript (EAttr (v "df") "columns") (EList [EInt 2; EInt 3])));
      assign (EAttr (v "df") "columns") (EList [EStr "sentiment"; EStr "text"]);
      assign (ESubscript (v "df") (EStr "text"))
        (method (ESubscript (v "df") (EStr "text")) "astype" [v "str"]);
      assign (ESubscript (v "df") (EStr "sentiment"))
        (method (ESubscript (v "df") (EStr "sentiment")) "astype" [v "str"]);
      assign (v "df") (method (v "df") "dropna" []);
      assign (v "df")
        (ESubscript (EAttr (v "df") "loc")
           (ECompare "!=" (ESubscript (v "df") (EStr "sentiment"))
              (EStr "Irrelevant")));
      do (call (v "display") [v "df"]) ];
    Code 33 [
      from_import "sklearn.model_selection" ["train_test_split"];
      assign (ETuple [v "train"; v "test"])
        (ECall (v "train_test_split") [v "df"] [("test_size", EFloat "0.2")]);
      assign (v "x_train") (ESubscript (v "train") (EStr "text"));
      assign (v "y_train") (ESubscript (v "train") (EStr "sentiment"));
      assign (v "x_test") (ESubscript (v "test") (EStr "text"));
      assign (v "y_test") (ESubscript (v "test") (EStr "sentiment")) ];
    Markdown;
    Code 34 [
      Simple (Import "pandas" (Some "pd"));
      from_import "sklearn.preprocessing" ["LabelBinarizer"];
      assign (v "encoder") (call (v "LabelBinarizer") []);
      do (method (v "encoder") "fit" [ESubscript (v "df") (EStr "sentiment")]);
      assign (v "y_train_encoded")
        (method (v "pd") "DataFrame"
           [method (v "encoder") "fit_transform" [v "y_train"]]);
      assign (v "y_test_encoded")
        (method (v "pd") "DataFrame"
           [method (v "encoder") "transform" [v "y_test"]]) ];
    Markdown;
    Code 35 [
      from_import "tensorflow.keras.preprocessing.text" ["Tokenizer"];
      assign (v "tokenizer") (call (v "Tokenizer") []);
      do (method (v "tokenizer") "fit_on_texts"
            [ESubscript (v "df") (EStr "text")]);
      do (call (v "display")
            [method (v "tokenizer") "texts_to_sequences"
               [EList [EStr "Hello World"]]]) ];
    Markdown;
    Code 36 [
      assign (v "maxlen") (EInt 96);
      from_import "tensorflow.keras.utils" ["pad_sequences"];
      assign (v "x_train")
        (ECall (v "pad_sequences")
           [method (v "tokenizer") "texts_to_sequences" [v "x_train"]]
           [("maxlen", v "maxlen")]);
      assign (v "x_test")
        (ECall (v "pad_sequences")
           [method (v "tokenizer") "texts_to_sequences" [v "x_test"]]
           [("maxlen", v "maxlen")]);
      do (call (v "display") [v "x_train"]) ];
    Markdown;
    Code 37 embedding_cell;
    Markdown;
    Code 45 model_cell;
    Markdown;
    Code 46 [
      from_import "tensorflow.keras.callbacks" ["EarlyStopping"];
      assign (v "earlystop")
        (ECall (v "EarlyStopping") []
           [("monitor", EStr "val_accuracy"); ("patience", EInt 5);
            ("restore_best_weights", EBool true)]) ];
    Markdown;
    Code 56 [
      from_import "tensorflow.keras.optimizers" ["Adam"];
      assign (v "optimizer")
        (ECall (v "Adam") [] [("learning_rate", EFloat "0.0001")]) ];
    Markdown;
    Code 59 [
      do (ECall (EAttr (v "model") "compile") []
            [("optimizer", v "optimizer");
             ("loss", EStr "categorical_crossentropy");
             ("metrics", EList [EStr "accuracy"])]);
      do (ECall (EAttr (v "model") "fit") [v "x_train"; v "y_train_encoded"]
            [("epochs", EInt 35); ("batch_size", EInt 128);
             ("validation_split", EFloat "0.1");
             ("callbacks", EList [v "earlystop"])]) ];
    Markdown;
    Code 60 [
      from_import "sklearn.metrics" ["classification_report"];
      assign (v "y_pred_probs")
        (ECall (EAttr (v "model") "predict") [v "x_test"]
           [("verbose", EBool false)]);
      assign (v "y_pred_labels")
        (ECall (EAttr (v "np") "argmax") [v "y_pred_probs"] [("axis", EInt 1)]);
      assign (v "y_true_labels")
        (ECall (EAttr (v "np") "argmax")
           [method (v "y_test_encoded") "to_numpy" []] [("axis", EInt 1)]);
      do (call (v "print")
            [ECall (v "classification_report")
               [v "y_true_labels"; v "y_pred_labels"]
               [("target_names", EAttr (v "encoder") "classes_")]]) ];
    Markdown ];
|}.

(** ** DistilRoBERTa (src/sentiment/05-roberta.ipynb) *)

(** Cell 4: the tokenizer and the function that applies it. *)
Definition tokenize_cell : list stmt := [
  from_import "transformers" ["RobertaTokenizerFast"];
  assign (v "tokenizer")
    (method (v "RobertaTokenizerFast") "from_pretrained"
       [EStr "distilbert/distilroberta-base"]);
  SDef "tokenize" ["text"] [
    assign (v "tokens")
      (ECall (v "tokenizer") [v "text"]
         [("return_tensors", EStr "np"); ("max_length", EInt 284);
          ("truncation", EBool true); ("padding", EBool true)]);
    Simple (Return (call (v "dict") [v "tokens"])) ] ].

(** Cell 12, lines 187-188: the dropout rates. *)
Definition dropout_cell : list stmt := [
  assign (EAttr (EAttr (v "model") "config") "attention_probs_dropout_prob")
    (EFloat "0.3");
  assign (EAttr (EAttr (v "model") "config") "hidden_dropout_prob")
    (EFloat "0.3") ].

Definition roberta : notebook := {|
  nb_path := "sentiment/05-roberta.ipynb";
  nb_cells := [
    Markdown; Markdown;
    Code 1 [
      from_import "datasets" ["load_dataset"];
      Simple (Import "numpy" (Some "np"));
      assign (ETuple [v "train"; v "test"])
        (ECall (v "load_dataset") [EStr "stanfordnlp/imdb"]
           [("split", EList [EStr "train"; EStr "test"])]);
      assign (v "class_names")
        (EAttr (ESubscript (EAttr (v "train") "features") (EStr "label"))
           "names");
      assign (v "x_train")
        (method (v "np") "array" [ESubscript (v "train") (EStr "text")]);
      assign (v "y_train")
        (method (v "np") "array" [ESubscript (v "train") (EStr "label")]);
      assign (v "x_test")
        (method (v "np") "array" [ESubscript (v "test") (EStr "text")]);
      assign (v "y_test")
        (method (v "np") "array" [ESubscript (v "test") (EStr "label")]) ];
    Markdown;
    Code 2 tokenize_cell;
    Markdown;
    Code 3 [
      assign (v "x_train")
        (call (v "tokenize") [method (v "x_train") "tolist" []]);
      assign (v "x_test")
        (call (v "tokenize") [method (v "x_test") "tolist" []]) ];
    Markdown;
    Code 4 [
      Simple (Magic "%env TF_USE_LEGACY_KERAS=1");
      Simple (FromImport "transformers"
                [("TFRobertaForSequenceClassification",
                  Some "RobertaForSequenceClassification")]);
      from_import "transformers" ["logging"; "set_seed"];
      do (method (v "logging") "set_verbosity_error" []);
      do (call (v "set_seed") [EInt 0]);
      assign (v "model")
        (ECall (EAttr (v "RobertaForSequenceClassification") "from_pretrained")
           [EStr "distilbert/distilroberta-base"]
           [("num_labels", call (v "len") [v "class_names"])]) ];
    Markdown;
    Code 5 [
      from_import "transformers" ["create_optimizer"];
      assign (v "epochs") (EInt 3);
      assign (v "validation_split") (EFloat "0.2");
      assign (v "batch_size") (EInt 32);
      assign (v "num_train_steps")
        (EBinOp "*" (v "epochs")
           (EBinOp "//"
              (EBinOp "*"
                 (call (v "len") [ESubscript (v "x_train") (EStr "input_ids")])
                 (EBinOp "-" (EInt 1) (v "validation_split")))
              (v "batch_size")));
      assign (ETuple [v "optimizer"; v "_"])
        (ECall (v "create_optimizer") []
           [("init_lr", EFloat "0.00002");
            ("weight_decay_rate", EFloat "0.01");
            ("num_warmup_steps",
             call (v "int") [EBinOp "*" (v "num_train_steps") (EFloat "0.1")]);
            ("num_train_steps", v "num_train_steps")]) ];
    Markdown;
    Code 6 dropout_cell;
    Markdown;
    Code 7 [
      from_import "tensorflow" ["device"];
      SWith (call (v "device") [EStr "/GPU"]) None [
        do (ECall (EAttr (v "model") "compile") []
              [("optimizer", v "optimizer");
               ("metrics", EList [EStr "accuracy"])]);
        assign (v "history")
          (ECall (EAttr (v "model") "fit") [v "x_train"; v "y_train"]
             [("epochs", v "epochs"); ("batch_size", v "batch_size");
              ("validation_split", v "validation_split")]) ] ];
    Markdown;
    Code 8 [
      from_import "sklearn.metrics" ["classification_report"];
      SWith (call (v "device") [EStr "/GPU"]) None [
        assign (v "y_pred_values")
          (EAttr
             (ECall (EAttr (v "model") "predict") [v "x_test"]
                [("verbose", EBool true)])
             "logits");
        assign (v "y_pred_labels")
          (ECall (EAttr (v "np") "argmax") [v "y_pred_values"]
             [("axis", EInt 1)]);
        do (call (v "print")
              [ECall (v "classification_report") [v "y_test"; v "y_pred_labels"]
                 [("target_names", v "class_names")]]) ] ];
    Code 9 [
      Simple (Import "matplotlib.pyplot" (Some "plt"));
      do (ECall (EAttr (v "plt") "figure") []
            [("figsize", ETuple [EFloat "4.5"; EInt 3])]);
      do (ECall (EAttr (v "plt") "plot")
            [ESubscript (EAttr (v "history") "history") (EStr "accuracy")]
            [("label", EStr "train")]);
      do (ECall (EAttr (v "plt") "plot")
            [ESubscript (EAttr (v "history") "history") (EStr "val_accuracy")]
            [("label", EStr "validation")]);
      do (method (v "plt") "ylabel" [EStr "accuracy"]);
      do (method (v "plt") "xlabel" [EStr "epoch"]);
      do (ECall (EAttr (v "plt") "legend") [] [("loc", EStr "lower right")]);
      do (method (v "plt") "show" []) ];
    Markdown ];
|}.

Definition notebooks : list notebook := [logreg; lstm; roberta].

(** A world in which the third evaluation of a run, and only that one,
    raises: for the LSTM notebook, the download of the dataset. *)
Definition download_fails : world := {|
  raises := λ k, if Nat.eqb k 2 then Some "ConnectionError" else None;
  iterations := λ _, 0;
  truth := λ _, true;
|}.


(** Two worlds in which nothing raises, with vocabularies of different
    sizes. *)
Definition no_words : world := {|
  raises := λ _, None;
  iterations := λ _, 0;
  truth := λ _, true;
|}.

Definition two_words : world := {|
  raises := λ _, None;
  iterations := λ _, 2;
  truth := λ _, true;
|}.

(** What a retry wrapper would look like: the failure of the call is
    caught and the call made again. *)
Definition retrying : list stmt := [
  STry [do (call (v "load") [])] None [do (call (v "load") [])] ].

(** A notebook is standalone when it runs without conditional control
    flow and resolves every name it reads. *)
Definition standalone (nb : notebook) : bool :=
  negb (existsb conditional (program nb))
  && bool_decide (undefined_names nb = []).

End Notebooks.

(* ===================================================================== *)
(** * The embedding matrix (LSTM notebook, cell 11, lines 302-308) *)
(* ===================================================================== *)

Module Embedding.

Inductive error := IndexError | ValueError | KeyError.

Inductive result (A : Type) :=
| Ok (a : A)
| Err (e : error).
Arguments Ok {A} a.
Arguments Err {A} e.

Definition bind {A B} (r : result A) (f : A → result B) : result B :=
  match r with
  | Ok a => f a
  | Err e => Err e
  end.

Section embedding.
(** The scalars of the matrix.  The loop only copies them (numpy widens
    the vectors of [wv] to the scalar type of the matrix, which keeps
    their values), so their arithmetic plays no part. *)
Context {F : Type} (zero : F).

(** [wv]: the Word2Vec vectors, keyed by word, all of one size.  The
    notebook never binds [wv]; it is taken as given. *)
Record keyed_vectors := {
  vector_size : nat;
  vectors : gmap string (list F);
}.

(** [word in wv] *)
Definition contains (wv : keyed_vectors) (word : string) : bool :=
  bool_decide (is_Some (vectors wv !! word)).

(** [wv.get_vector(word)] *)
Definition get_vector (wv : keyed_vectors) (word : string)
    : result (list F) :=
  match vectors wv !! word with
  | Some vec => Ok vec
  | None => Err KeyError
  end.

(** [np.zeros(n)] and [np.zeros(shape=(rows, cols))] *)
Definition zeros (n : nat) : list F := replicate n zero.
Definition zeros2 (shape : nat * nat) : list (list F) :=
  replicate shape.1 (zeros shape.2).

(** The row an integer index selects: a negative index counts from the
    end, an index outside the matrix is an [IndexError]. *)
Definition row_index (rows : nat) (index : Z) : result nat :=
  let n := Z.of_nat rows in
  if decide (0 ≤ index < n)%Z then Ok (Z.to_nat index)
  else if decide (- n ≤ index < 0)%Z then Ok (Z.to_nat (n + index))
  else Err IndexError.

(** A vector stored into a row of width [cols] must have that width,
    or a single element, which is repeated. *)
Definition broadcast (cols : nat) (vec : list F) : result (list F) :=
  if decide (length vec = cols) then Ok vec
  else match vec with
       | [x] => Ok (replicate cols x)
       | _ => Err ValueError
       end.

(** [matrix[index] = vec] *)
Definition set_row (matrix : list (list F)) (index : Z) (vec : list F)
    : result (list (list F)) :=
  bind (row_index (length matrix) index) (λ i,
  bind (broadcast (length (default [] (matrix !! i))) vec) (λ row,
  Ok (<[i := row]> matrix))).

(** The body of the loop, for one item of [tokenizer.word_index]. *)
Definition embed_word (wv : keyed_vectors) (matrix : list (list F))
    (item : string * Z) : result (list (list F)) :=
  let '(word, index) := item in
  if contains wv word
  then bind (get_vector wv word) (set_row matrix index)
  else set_row matrix index (zeros (vector_size wv)).

(** [for word, index in tokenizer.word_index.items(): ...] *)
Fixpoint embed_words (wv : keyed_vectors) (items : list (string * Z))
    (matrix : list (list F)) : result (list (list F)) :=
  match items with
  | [] => Ok matrix
  | item :: rest =>
      bind (embed_word wv matrix item) (embed_words wv rest)
  end.

(** The whole cell; [word_index] holds the items of the dictionary in
    its order. *)
Definition embedding_matrix (word_index : list (string * Z))
    (wv : keyed_vectors) : result (list (list F)) :=
  let embedding_matrix_shape := (length word_index + 1, vector_size wv) in
  embed_words wv word_index (zeros2 embedding_matrix_shape).

(** What the libraries guarantee of the two inputs: every vector of
    [wv] has [vector_size] elements; the tokenizer numbers its words
    1, 2, ..., each index once. *)
Definition vectors_sized (wv : keyed_vectors) : Prop :=
  ∀ word vec, vectors wv !! word = Some vec → length vec = vector_size wv.

Definition numbered (word_index : list (string * Z)) : Prop :=
  NoDup word_index.*2
  ∧ ∀ word index, (word, index) ∈ word_index →
      (1 ≤ index ≤ Z.of_nat (length word_index))%Z.

(** The row a word should get: its vector, or zeros when it has none. *)
Definition expected_row (wv : keyed_vectors) (word : string) : list F :=
  default (zeros (vector_size wv)) (vectors wv !! word).
End embedding.
Arguments keyed_vectors F : clear implicits.

End Embedding.

(* ===================================================================== *)
(** * Padding (LSTM notebook, cell 9, lines 274-278) *)
(* ===================================================================== *)

Module Padding.

(** ** [keras.utils.pad_sequences]

    The notebook calls the library function with [maxlen] alone; its
    other parameters keep their defaults.  The function is written out
    here after the library: a matrix filled with [value], into which
    each sequence, truncated to at most [maxlen] entries, is stored at
    the front or at the end of its row.  First the rows as lists of
    integers ([pad_row], [pad_sequences]), then the element type the
    library gives them ([pad_row_as], [pad_sequences_as]). *)

Inductive side := Pre | Post.

(** [s[start:]] *)
Definition slice_from {A} (start : Z) (s : list A) : list A :=
  let n := Z.of_nat (length s) in
  let start' := if decide (start < 0)%Z then Z.max 0 (n + start) else Z.min start n in
  drop (Z.to_nat start') s.

(** [s[:stop]], for a [stop] that is not negative *)
Definition slice_to {A} (stop : nat) (s : list A) : list A := take stop s.

(** [row[start:] = vals] on an array row: the values must fill the
    slice, or be a single value, which is repeated. *)
Definition store_from {A} (start : Z) (vals row : list A) : option (list A) :=
  let n := Z.of_nat (length row) in
  let start' := if decide (start < 0)%Z then Z.max 0 (n + start) else Z.min start n in
  let width := length row - Z.to_nat start' in
  if decide (length vals = width) then Some (take (Z.to_nat start') row ++ vals)
  else match vals with
       | [x] => Some (take (Z.to_nat start') row ++ replicate width x)
       | _ => None
       end.

(** [row[:stop] = vals] *)
Definition store_to {A} (stop : nat) (vals row : list A) : option (list A) :=
  let width := stop `min` length row in
  if decide (length vals = width) then Some (vals ++ drop width row)
  else match vals with
       | [x] => Some (replicate width x ++ drop width row)
       | _ => None
       end.

Definition pad_row (maxlen : nat) (padding truncating : side) (value : Z)
    (s : list Z) : option (list Z) :=
  let row := replicate maxlen value in
  if decide (length s = 0) then Some row
  else
    let trunc :=
      match truncating with
      | Pre => slice_from (- Z.of_nat maxlen) s
      | Post => slice_to maxlen s
      end in
    match padding with
    | Post => store_to (length trunc) trunc row
    | Pre => store_from (- Z.of_nat (length trunc)) trunc row
    end.

Definition pad_sequences (sequences : list (list Z)) (maxlen : option nat)
    (padding truncating : side) (value : Z) : option (list (list Z)) :=
  let maxlen := default (max_list (length <$> sequences)) maxlen in
  mapM (pad_row maxlen padding truncating value) sequences.

(** ** The element type of the rows

    The matrix is made with [dtype], and what is kept of a sequence is
    cast to it before it is stored:
    [trunc = np.asarray(trunc, dtype=dtype)].  The tokens are Python
    integers, and numpy refuses one that is outside the range of the
    type with an [OverflowError].  A token within the range is stored
    as it is.  A sequence without tokens is skipped before the cast. *)

Inductive dtype := Int32 | Int64.

Definition fits (t : dtype) (x : Z) : Prop :=
  match t with
  | Int32 => (- 2 ^ 31 ≤ x < 2 ^ 31)%Z
  | Int64 => (- 2 ^ 63 ≤ x < 2 ^ 63)%Z
  end.

Global Instance fits_dec t x : Decision (fits t x).
Proof. destruct t; apply _. Defined.

Inductive error := ValueError | OverflowError.

(** What the call keeps of a sequence: [s[-maxlen:]] or [s[:maxlen]]. *)
Definition trunc (maxlen : nat) (truncating : side) (s : list Z) : list Z :=
  match truncating with
  | Pre => slice_from (- Z.of_nat maxlen) s
  | Post => slice_to maxlen s
  end.

Definition pad_row_as (t : dtype) (maxlen : nat) (padding truncating : side)
    (value : Z) (s : list Z) : error + list Z :=
  if decide (length s = 0) then inr (replicate maxlen value)
  else if decide (Forall (fits t) (trunc maxlen truncating s)) then
    match pad_row maxlen padding truncating value s with
    | Some row => inr row
    | None => inl ValueError
    end
  else inl OverflowError.

(** The rows are made one after the other: the first sequence that
    cannot be stored ends the call. *)
Fixpoint pad_rows_as (t : dtype) (maxlen : nat) (padding truncating : side)
    (value : Z) (sequences : list (list Z)) : error + list (list Z) :=
  match sequences with
  | [] => inr []
  | s :: rest =>
      match pad_row_as t maxlen padding truncating value s with
      | inl e => inl e
      | inr row =>
          match pad_rows_as t maxlen padding truncating value rest with
          | inl e => inl e
          | inr rows => inr (row :: rows)
          end
      end
  end.

Definition pad_sequences_as (t : dtype) (sequences : list (list Z))
    (maxlen : option nat) (padding truncating : side) (value : Z)
    : error + list (list Z) :=
  let maxlen := default (max_list (length <$> sequences)) maxlen in
  pad_rows_as t maxlen padding truncating value sequences.

(** ** The call of the notebook:
    [pad_sequences(tokenizer.texts_to_sequences(x), maxlen=maxlen)] *)

Definition maxlen : nat := 96.

Definition padded (sequences : list (list Z)) : option (list (list Z)) :=
  pad_sequences sequences (Some maxlen) Pre Pre 0.

(** The same call with the element type of its rows, [int32], the
    default of [dtype]. *)
Definition padded_int32 (sequences : list (list Z))
    : error + list (list Z) :=
  pad_sequences_as Int32 sequences (Some maxlen) Pre Pre 0.

(** The calls to [pad_sequences] in the cells: the argument and the
    keywords of each, as bound when the call is made. *)
Definition pad_calls (nb : Py.notebook)
    : list (list Py.expr * list (string * Py.expr)) :=
  (λ c, (Py.call_args c.2,
         (λ kv, (kv.1, Py.resolve c.1 kv.2)) <$> Py.call_kwargs c.2))
  <$> Py.calls_to ["pad_sequences"] nb.

(** The row a sequence should get: its last [n] tokens when
    it has more than [n], and itself behind zeros otherwise. *)
Definition last_tokens (n : nat) (s : list Z) : list Z :=
  if decide (n < length s)
  then drop (length s - n) s
  else replicate (n - length s) 0%Z ++ s.

(** A text of a hundred tokens, 1 to 100. *)
Definition hundred_tokens : list Z := Z.of_nat <$> seq 1 100.

(** A text whose first token is too large for [int32], before a
    hundred tokens that are not. *)
Definition large_first : list Z := (2 ^ 31)%Z :: hundred_tokens.

End Padding.

(* ===================================================================== *)
(** * Hyperparameter search (logistic-regression notebook, cells 12, 14) *)
(* ===================================================================== *)

Module Search.
Import Py.

(** A parameter grid: for each parameter, the values to try. *)
Definition axis_of (item : expr * expr) : option (string * list expr) :=
  match item with
  | (EStr name, EList values) => Some (name, values)
  | _ => None
  end.

Definition grid_axes (grid : expr) : option (list (string * list expr)) :=
  match grid with
  | EDict items => mapM axis_of items
  | _ => None
  end.

(** Every combination of one value per parameter: what an exhaustive
    search would try. *)
Fixpoint grid_points (axes : list (string * list expr))
    : list (list (string * expr)) :=
  match axes with
  | [] => [[]]
  | (name, values) :: rest =>
      flat_map (λ val, map (cons (name, val)) (grid_points rest)) values
  end.

Definition grid_size (axes : list (string * list expr)) : nat :=
  foldr (λ axis n, length axis.2 * n) 1 axes.

(** [RandomizedSearchCV(estimator, param_distributions, n_iter=10, ...)]:
    the number of candidates it draws is [n_iter], 10 unless given; from
    a grid with fewer points than that it takes them all. *)
Definition default_n_iter : nat := 10.

Definition n_iter (search : expr) : nat :=
  match kwarg "n_iter" search with
  | Some (EInt n) => Z.to_nat n
  | _ => default_n_iter
  end.

Definition candidates (search : expr) (axes : list (string * list expr)) : nat :=
  n_iter search `min` grid_size axes.

(** [n_jobs]: the number of workers the search hands its fits to.
    Without the keyword there is one (outside a [parallel_backend]
    context); [-1] stands for every processor of the machine, [-2] for
    all but one, and so on; [0] is refused. *)
Definition n_jobs (search : expr) : option Z :=
  match kwarg "n_jobs" search with
  | Some (EInt n) => Some n
  | Some (EUnOp "-" (EInt n)) => Some (- n)%Z
  | _ => None
  end.

Definition workers (cpus : nat) (search : expr) : option nat :=
  match n_jobs search with
  | None => Some 1
  | Some n =>
      if decide (n = 0)%Z then None
      else if decide (0 < n)%Z then Some (Z.to_nat n)
      else Some (1 `max` (cpus + 1 - Z.to_nat (- n)))
  end.

(** The search the notebook binds [cv] to, with the grid it is given
    (second argument), as bound when the call is made. *)
Definition search_call (nb : notebook) : option (expr * expr) :=
  match calls_to ["RandomizedSearchCV"] nb with
  | [(ρ, c)] =>
      match call_args c with
      | [_; grid] => Some (c, resolve ρ grid)
      | _ => None
      end
  | _ => None
  end.

(** The estimator the search is given (first argument), as bound when
    the call is made. *)
Definition search_estimator (nb : notebook) : option expr :=
  match calls_to ["RandomizedSearchCV"] nb with
  | [(ρ, c)] => resolve ρ <$> head (call_args c)
  | _ => None
  end.

(** The stages of the pipeline: the name of each, and the constructor of
    the object it holds, as bound when [Pipeline] is called. *)
Definition stage_of (e : expr) : option (string * list string) :=
  match e with
  | ETuple [EStr name; obj] => pair name <$> callee obj
  | _ => None
  end.

Definition pipeline_stages (nb : notebook) : option (list (string * list string)) :=
  match calls_to ["Pipeline"] nb with
  | [(ρ, c)] =>
      match resolve ρ <$> call_args c with
      | [EList stages] => mapM stage_of stages
      | _ => None
      end
  | _ => None
  end.

End Search.

(* ===================================================================== *)
(** * The network (LSTM notebook, cells 13-19) *)
(* ===================================================================== *)

Module Network.
Import Py.

(** The layers handed to [Sequential], by constructor. *)
Definition layers_of (u : use) : option (list (option (list string))) :=
  match u with
  | Bound (ECall (EName "Sequential") [EList layers] []) =>
      Some (callee <$> layers)
  | _ => None
  end.

Definition network (nb : notebook) : option (list (option (list string))) :=
  head (uses "model" nb) ≫= layers_of.

Definition is_call_of (m : string) (u : use) : bool :=
  match u with
  | MethodCall [m'] _ _ => String.eqb m m'
  | _ => false
  end.

(** The calls [model.m(...)] of a notebook, arguments as bound at the
    call. *)
Definition method_calls (m : string) (nb : notebook) : list use :=
  List.filter (is_call_of m) (uses "model" nb).

Definition first_arg (u : use) : option expr :=
  match u with
  | MethodCall _ (a :: _) _ => Some a
  | _ => None
  end.

(** The constructors of the callbacks a [fit] call is given. *)
Definition callbacks (u : use) : list (option (list string)) :=
  match u with
  | MethodCall _ _ kwargs =>
      match lookup_kw "callbacks" kwargs with
      | Some (EList cbs) => callee <$> cbs
      | _ => []
      end
  | _ => []
  end.

End Network.

(* ===================================================================== *)
(** * Seeds of the random splits *)
(* ===================================================================== *)

Module Seeding.
Import Py.

(** What the libraries draw at random, as a function of the state of a
    generator: the shuffle of a split and the grid points of a search.
    [test_rows n] is the number of rows, out of [n], a split with
    [test_size=0.2] puts in the test set. *)
Record random_lib := {
  rng : Type;
  seeded : Z → rng;
  permutation : rng → nat → list nat;
  choose : rng → nat → nat → list nat;
  test_rows : nat → nat;
}.

(** The generator behind a call: the one its seed determines, or, with
    no seed given, the generator of the process, whose state differs
    from run to run. *)
Definition generator (L : random_lib) (ambient : rng L) (seed : option Z)
    : rng L :=
  match seed with
  | Some s => seeded L s
  | None => ambient
  end.

(** A shuffled split: the first [test_rows] rows of the shuffle are the
    test set, the other rows the training set. *)
Definition train_test_split {A} (L : random_lib) (g : rng L) (rows : list A)
    : list A * list A :=
  let perm := permutation L g (length rows) in
  let n_test := test_rows L (length rows) in
  let pick := omap (λ i, rows !! i) in
  (pick (drop n_test perm), pick (take n_test perm)).

(** The seed a call passes under keyword [k], if it passes one. *)
Definition seed_kw (k : string) (c : expr) : option Z :=
  match kwarg k c with
  | Some (EInt s) => Some s
  | _ => None
  end.

(** The seed of the only call to [path] in a notebook. *)
Definition seed_of (nb : notebook) (path : list string) (k : string)
    : option Z :=
  match calls_to path nb with
  | [(_, c)] => seed_kw k c
  | _ => None
  end.

Import Notebooks.

(** Logistic regression, cell 2:
    [ds.train_test_split(test_size=0.2, seed=0)] *)
Definition logreg_split {A} (L : random_lib) (ambient : rng L) (ds : list A)
    : list A * list A :=
  train_test_split L
    (generator L ambient (seed_of logreg ["ds"; "train_test_split"] "seed")) ds.

(** Logistic regression, cell 14: the grid points
    [RandomizedSearchCV(pipeline, param_grid, random_state=0, ...)]
    tries. *)
Definition logreg_candidates (L : random_lib) (ambient : rng L) : list nat :=
  match Search.search_call logreg with
  | Some (search, grid) =>
      let axes := default [] (Search.grid_axes grid) in
      choose L
        (generator L ambient (seed_kw "random_state" search))
        (Search.grid_size axes) (Search.candidates search axes)
  | None => []
  end.

(** LSTM, cell 3: [train_test_split(df, test_size=0.2)] *)
Definition lstm_split {A} (L : random_lib) (ambient : rng L) (df : list A)
    : list A * list A :=
  train_test_split L
    (generator L ambient
       (seed_of lstm ["train_test_split"] "random_state")) df.

(** A library to run the splits with: the state is a number, and the
    shuffle rotates the rows by it. *)
Definition rotating : random_lib := {|
  rng := nat;
  seeded := Z.to_nat;
  permutation := λ g n, rotate g (seq 0 n);
  choose := λ g n k, take k (rotate g (seq 0 n));
  test_rows := λ n, (n + 4) / 5;
|}.

End Seeding.
(* ===================================================================== *)
(** * More of the concurrency group (src/unnamed/part_000, lines 12-14) *)
(* ===================================================================== *)

Module Group.
Import Workflow.

(** The configuration of the file. *)
Definition pages : concurrency := wf_concurrency pages_deploy.

(** Runs of the group that wait. *)
Definition pending (rs : list wf_run) : nat :=
  length (filter (λ r, run_status r = Pending) rs).

(** How an event may change the status of a run when runs in progress
    are not cancelled: a pending run may go anywhere, a run in progress
    stays so or completes, a cancelled or completed run stays as it
    is. *)
Definition advances (s s' : status) : Prop :=
  match s with
  | Pending => True
  | InProgress => s' = InProgress ∨ s' = Completed
  | Cancelled => s' = Cancelled
  | Completed => s' = Completed
  end.

(** The same when the event is the end of a run: nothing is cancelled. *)
Definition advances_on_finish (s s' : status) : Prop :=
  match s with
  | Pending => s' = Pending ∨ s' = InProgress
  | _ => advances s s'
  end.

(** The counts the scheduler keeps: one run in progress at most, one
    run waiting at most, and none waiting unless one is in progress. *)
Definition settled (rs : list wf_run) : Prop :=
  in_progress rs ≤ 1 ∧ pending rs ≤ 1 ∧ (0 < pending rs → in_progress rs = 1).

Definition is_finished (e : sched_event) : bool :=
  match e with
  | Finished _ => true
  | Queued _ => false
  end.

End Group.

(* ===================================================================== *)
(** * The tokenizer (LSTM notebook, cells 7 and 9, lines 233-236, 277-278) *)
(* ===================================================================== *)

Module Tokenizer.

(** ** [keras.preprocessing.text.Tokenizer]

    The notebook builds the tokenizer with no argument: every word
    counts ([num_words] is [None]) and there is no token for unknown
    words ([oov_token] is [None]).  The two methods it calls are written
    out here after the library. *)

Section tokenizer.
(** [text_to_word_sequence]: the words of a text, lower-cased and
    without punctuation.  How a text splits into words is left open. *)
Variable words_of : string → list string.

(** One more occurrence of a word in [word_counts], an ordered
    dictionary: a new word goes last. *)
Fixpoint count_word (w : string) (counts : list (string * nat))
    : list (string * nat) :=
  match counts with
  | [] => [(w, 1)]
  | (w', n) :: rest =>
      if String.eqb w' w then (w', S n) :: rest
      else (w', n) :: count_word w rest
  end.

Definition word_counts (texts : list string) : list (string * nat) :=
  foldl (λ counts w, count_word w counts) [] (flat_map words_of texts).

(** [wcounts.sort(key=lambda x: x[1], reverse=True)]: by falling count,
    words of equal count in the order they had. *)
Fixpoint insert_desc (x : string * nat) (sorted : list (string * nat))
    : list (string * nat) :=
  match sorted with
  | [] => [x]
  | y :: rest =>
      if x.2 <=? y.2 then y :: insert_desc x rest else x :: y :: rest
  end.

Definition sort_desc (wcounts : list (string * nat)) : list (string * nat) :=
  foldl (λ sorted x, insert_desc x sorted) [] wcounts.

Definition sorted_voc (texts : list string) : list string :=
  (sort_desc (word_counts texts)).*1.

(** [tokenizer.fit_on_texts(texts)], as far as [word_index] goes:
    [dict(zip(sorted_voc, range(1, len(sorted_voc) + 1)))], given as the
    items of the dictionary. *)
Definition fit_on_texts (texts : list string) : list (string * Z) :=
  zip (sorted_voc texts) (Z.of_nat <$> seq 1 (length (sorted_voc texts))).

(** [word_index.get(w)] *)
Definition index_of (word_index : list (string * Z)) (w : string) : option Z :=
  snd <$> find (λ item, String.eqb item.1 w) word_index.

(** [tokenizer.texts_to_sequences(texts)]: the index of every word that
    has one; a word without index is left out. *)
Definition texts_to_sequences (word_index : list (string * Z))
    (texts : list string) : list (list Z) :=
  (λ text, omap (index_of word_index) (words_of text)) <$> texts.

(** ** The cells

    Cell 7 fits the tokenizer on the texts of the whole frame; cell 9
    turns texts into padded rows; cell 11 builds the embedding matrix
    from the word index; cell 13 hands the matrix to the embedding
    layer, with the numbers of its rows and columns as [input_dim] and
    [output_dim]. *)

Definition word_index (df_text : list string) : list (string * Z) :=
  fit_on_texts df_text.

Definition x_padded (df_text x : list string) : option (list (list Z)) :=
  Padding.padded (texts_to_sequences (word_index df_text) x).

Definition embedding_matrix_shape {F} (df_text : list string)
    (wv : Embedding.keyed_vectors F) : nat * nat :=
  (length (word_index df_text) + 1, Embedding.vector_size wv).

Definition embedding_matrix {F} (zero : F) (df_text : list string)
    (wv : Embedding.keyed_vectors F)
    : Embedding.result (list (list F)) :=
  Embedding.embedding_matrix zero (word_index df_text) wv.

(** Whether a row can be looked up in a table of [input_dim] rows. *)
Definition indexes (input_dim : nat) (row : list Z) : Prop :=
  Forall (λ t, (0 ≤ t < Z.of_nat input_dim)%Z) row.

(** A row is masked properly when it is zeros followed by tokens that
    are not zero: with [mask_zero=True] the layer skips the zeros. *)
Definition zero_padded (row : list Z) : Prop :=
  ∃ k tokens, row = replicate k 0%Z ++ tokens ∧ Forall (λ t, t ≠ 0%Z) tokens.
End tokenizer.

(** A word index of two words and vectors for one of them, for
    examples. *)
Definition the_cat : list (string * Z) := [("the", 1%Z); ("cat", 2%Z)].

Definition the_vectors : Embedding.keyed_vectors Z :=
  {| Embedding.vector_size := 2;
     Embedding.vectors := {[ "the" := [5; 6]%Z ]} |}.

(** Words split at blanks, for examples. *)
Fixpoint split_blank (acc : string) (s : string) : list string :=
  match s with
  | EmptyString => if String.eqb acc "" then [] else [acc]
  | String c rest =>
      if Ascii.eqb c " "%char
      then (if String.eqb acc "" then [] else [acc]) ++ split_blank "" rest
      else split_blank (acc +:+ String c "") rest
  end.

Definition blank_words (s : string) : list string := split_blank "" s.

End Tokenizer.

(* ===================================================================== *)
(** * Label encoding (LSTM notebook, cells 5, 13 and 21,
      lines 195-201, 333, 478-479) *)
(* ===================================================================== *)

Module Labels.
Import Embedding.

(** ** [sklearn.preprocessing.LabelBinarizer] and [np.argmax]

    Written out after the libraries, for labels that are strings, as
    the notebook makes them, with the defaults of the encoder
    ([neg_label=0], [pos_label=1], dense output). *)

(** [np.unique]: the labels in rising order, each once. *)
Fixpoint insert_sorted (x : string) (sorted : list string) : list string :=
  match sorted with
  | [] => [x]
  | y :: rest =>
      if String.leb x y then x :: sorted else y :: insert_sorted x rest
  end.

Definition unique (labels : list string) : list string :=
  foldr insert_sorted [] (remove_dups labels).

(** [type_of_target], for a column of labels: binary up to two
    different labels, multiclass from three. *)
Inductive target := Binary | Multiclass.

Definition type_of_target (y : list string) : target :=
  if decide (length (remove_dups y) ≤ 2) then Binary else Multiclass.

(** [encoder.fit(y)]: the classes of [y]; no samples is an error. *)
Definition fit (y : list string) : result (list string) :=
  match y with
  | [] => Err ValueError
  | _ => Ok (unique y)
  end.

(** The row of a label: 1 in the column of its class, 0 elsewhere; a
    label that is not among the classes has no 1. *)
Definition one_hot (classes : list string) (label : string) : list Z :=
  (λ c, if String.eqb c label then 1%Z else 0%Z) <$> classes.

(** [encoder.transform(y)] with fitted [classes]: one row per label.
    For binary [y] and one class the rows are a single 0; for binary
    [y] and two classes they are the last column alone; otherwise they
    are the rows above. *)
Definition transform (classes : list string) (y : list string)
    : result (list (list Z)) :=
  match y with
  | [] => Err ValueError
  | _ =>
      match type_of_target y, length classes with
      | Binary, 1 => Ok ((λ _, [0%Z]) <$> y)
      | Binary, 2 =>
          Ok ((λ label, option_list (last (one_hot classes label))) <$> y)
      | Binary, 0 => Err IndexError
      | _, _ => Ok (one_hot classes <$> y)
      end
  end.

(** [np.argmax] of a row: the place of its first greatest entry; an
    empty row is an error. *)
Fixpoint argmax_from (best_at : nat) (best : Z) (place : nat) (row : list Z)
    : nat :=
  match row with
  | [] => best_at
  | x :: rest =>
      if (best <? x)%Z then argmax_from place x (S place) rest
      else argmax_from best_at best (S place) rest
  end.

Definition argmax (row : list Z) : result nat :=
  match row with
  | [] => Err ValueError
  | x :: rest => Ok (argmax_from 0 x 1 rest)
  end.

(** [np.argmax(rows, axis=1)] *)
Fixpoint argmax_rows (rows : list (list Z)) : result (list nat) :=
  match rows with
  | [] => Ok []
  | row :: rest =>
      bind (argmax row) (λ i, bind (argmax_rows rest) (λ l, Ok (i :: l)))
  end.

(** ** The cells *)

Record encoded := {
  classes_ : list string;
  y_train_encoded : list (list Z);
  y_test_encoded : list (list Z);
}.

(** Cell 5: the encoder is fitted on the labels of the frame, fitted
    again on the training labels by [fit_transform], and then applied
    to the test labels. *)
Definition encode (df_sentiment y_train y_test : list string)
    : result encoded :=
  bind (fit df_sentiment) (λ _,
  bind (fit y_train) (λ classes,
  bind (transform classes y_train) (λ train,
  bind (transform classes y_test) (λ test,
  Ok {| classes_ := classes; y_train_encoded := train;
        y_test_encoded := test |})))).

(** Cell 13: [num_classes = len(encoder.classes_)], the number of
    outputs of the [Dense] layer. *)
Definition num_classes (e : encoded) : nat := length (classes_ e).

(** Cell 21: [y_true_labels = np.argmax(y_test_encoded.to_numpy(), axis=1)];
    the report names label [j] by [encoder.classes_[j]]. *)
Definition y_true_labels (e : encoded) : result (list nat) :=
  argmax_rows (y_test_encoded e).

Definition target_name (e : encoded) (j : nat) : option string :=
  classes_ e !! j.

End Labels.

(* ===================================================================== *)
(** * Data preparation (LSTM notebook, cells 2 and 3, lines 153-160,
      171-176) *)
(* ===================================================================== *)

Module Frame.
Import Embedding.

(** ** The [pandas] operations of the cells

    A data frame is given by the labels of its columns and by its rows;
    a cell holds a value, taken as its text, or is missing.  The labels
    of the rows play no part in the cells and are left out.  The
    operations are written out after the library. *)

Record frame := {
  columns : list string;
  rows : list (list (option string));
}.

(** Every row has one cell per column. *)
Definition rectangular (df : frame) : Prop :=
  Forall (λ row, length row = length (columns df)) (rows df).

(** [df.columns[[i, j, ...]]]: the labels at the positions; a position
    past the last column is an [IndexError]. *)
Fixpoint labels_at (positions : list nat) (cols : list string)
    : result (list string) :=
  match positions with
  | [] => Ok []
  | p :: rest =>
      match cols !! p with
      | Some label => bind (labels_at rest cols) (λ ls, Ok (label :: ls))
      | None => Err IndexError
      end
  end.

(** The positions of the columns that carry a label. *)
Fixpoint positions_from (start : nat) (label : string) (cols : list string)
    : list nat :=
  match cols with
  | [] => []
  | c :: rest =>
      (if String.eqb c label then [start] else [])
      ++ positions_from (S start) label rest
  end.

Definition positions_of (label : string) (cols : list string) : list nat :=
  positions_from 0 label cols.

(** The cells of a row, or the labels of the columns, at some
    positions. *)
Definition project {A} (positions : list nat) (l : list A) : list A :=
  omap (λ p, l !! p) positions.

(** [df[labels]]: the columns that carry the labels, label by label; a
    label that no column carries is a [KeyError]. *)
Definition select (labels : list string) (df : frame) : result frame :=
  if forallb (λ label, bool_decide (label ∈ columns df)) labels then
    let positions := flat_map (λ label, positions_of label (columns df)) labels in
    Ok {| columns := project positions (columns df);
          rows := project positions <$> rows df |}
  else Err KeyError.

(** [df.columns = names]: as many names as columns, or a
    [ValueError]. *)
Definition rename (names : list string) (df : frame) : result frame :=
  if decide (length names = length (columns df))
  then Ok {| columns := names; rows := rows df |}
  else Err ValueError.

(** [df[label]]: the column that carries the label, as the list of its
    cells.  (With several such columns the result is a frame; the cells
    only use labels that one column carries.) *)
Definition column (label : string) (df : frame)
    : result (list (option string)) :=
  match positions_of label (columns df) with
  | [] => Err KeyError
  | p :: _ => Ok ((λ row, mjoin (row !! p)) <$> rows df)
  end.

(** [df[label] = values]: the column is replaced cell by cell; as many
    values as rows, or a [ValueError]. *)
Definition set_column (label : string) (values : list (option string))
    (df : frame) : result frame :=
  match positions_of label (columns df) with
  | [] => Err KeyError
  | p :: _ =>
      if decide (length values = length (rows df))
      then Ok {| columns := columns df;
                 rows := zip_with (λ row val, <[p := val]> row) (rows df) values |}
      else Err ValueError
  end.

Section prepare.
(** What [astype(str)] makes of a missing value: the text [nan] where
    the library turns every value into text, a missing value where it
    keeps missing values. *)
Variable str_of_missing : option string.

(** [series.astype(str)] *)
Definition astype_str (series : list (option string)) : list (option string) :=
  (λ c, match c with Some s => Some s | None => str_of_missing end) <$> series.

(** [df.dropna()]: the rows without a missing cell. *)
Definition dropna (df : frame) : frame :=
  {| columns := columns df;
     rows := List.filter (forallb (λ c : option string, bool_decide (is_Some c)))
               (rows df) |}.

(** [df.loc[df[label] != value]]: the rows whose cell under the label is
    not the value; a missing cell is not the value. *)
Definition drop_value (label value : string) (df : frame) : result frame :=
  bind (column label df) (λ series,
  Ok {| columns := columns df;
        rows := fst <$> List.filter
                          (λ rc, negb (bool_decide (rc.2 = Some value)))
                          (zip (rows df) series) |}).

(** ** Cell 2, after the frame is loaded *)
Definition prepare (df : frame) : result frame :=
  bind (labels_at [2; 3] (columns df)) (λ labels,
  bind (select labels df) (λ df,
  bind (rename ["sentiment"; "text"] df) (λ df,
  bind (column "text" df) (λ text,
  bind (set_column "text" (astype_str text) df) (λ df,
  bind (column "sentiment" df) (λ sentiment,
  bind (set_column "sentiment" (astype_str sentiment) df) (λ df,
  let df := dropna df in
  drop_value "sentiment" "Irrelevant" df))))))).

(** What the cell makes of a row of the loaded frame: its third and
    fourth cells as text, if the row is kept. *)
Definition prepared_row (row : list (option string))
    : list (option string) :=
  astype_str [mjoin (row !! 2); mjoin (row !! 3)].

Definition kept (row : list (option string)) : bool :=
  forallb (λ c : option string, bool_decide (is_Some c)) row
  && negb (bool_decide (row !! 0 = Some (Some "Irrelevant"))).
End prepare.

(** A loaded frame of four columns and four rows, for examples: the
    first row is to go, the second has no text. *)
Definition tweets : frame := {|
  columns := ["2401"; "Borderlands"; "Positive"; "first tweet"];
  rows :=
    [ [Some "2402"; Some "Borderlands"; Some "Irrelevant"; Some "second"];
      [Some "2403"; Some "Amazon"; Some "Negative"; None];
      [Some "2404"; Some "Amazon"; Some "Neutral"; Some "fourth"];
      [Some "2405"; Some "Google"; Some "Positive"; Some "fifth"] ];
|}.

End Frame.

Module Split.
Import Embedding Frame.

(** [train_test_split(df, test_size=0.2)] of [sklearn]: the rows,
    shuffled and divided; a [ValueError] when no row would be left for
    training. *)
Definition train_test_split {A} (L : Seeding.random_lib) (g : Seeding.rng L)
    (rows : list A) : result (list A * list A) :=
  let n := length rows in
  if decide (n - Seeding.test_rows L n = 0) then Err ValueError
  else Ok (Seeding.train_test_split L g rows).

Record parts := {
  x_train : list (option string);
  y_train : list (option string);
  x_test : list (option string);
  y_test : list (option string);
}.

(** Cell 3: the split, which passes no seed, and the columns of the two
    parts. *)
Definition split_frame (L : Seeding.random_lib) (ambient : Seeding.rng L)
    (df : frame) : result parts :=
  let g :=
    Seeding.generator L ambient
      (Seeding.seed_of Notebooks.lstm ["train_test_split"] "random_state") in
  bind (train_test_split L g (rows df)) (λ tt,
  let train := {| columns := columns df; rows := tt.1 |} in
  let test := {| columns := columns df; rows := tt.2 |} in
  bind (column "text" train) (λ x_train,
  bind (column "sentiment" train) (λ y_train,
  bind (column "text" test) (λ x_test,
  bind (column "sentiment" test) (λ y_test,
  Ok {| x_train := x_train; y_train := y_train;
        x_test := x_test; y_test := y_test |}))))).

(** The texts of a column. *)
Definition texts (series : list (option string)) : list string :=
  omap id series.

(** The library shuffles: what it draws for [n] rows is an arrangement
    of the row numbers below [n]. *)
Definition shuffles (L : Seeding.random_lib) : Prop :=
  ∀ (g : Seeding.rng L) n, Seeding.permutation L g n ≡ₚ seq 0 n.

(** A prepared frame: the columns of cell 2, and in every row a label
    and a text. *)
Definition prepared (df : frame) : Prop :=
  columns df = ["sentiment"; "text"]
  ∧ Forall (λ row, ∃ s t, row = [Some s; Some t] ∧ s ≠ "Irrelevant") (rows df).

(** A prepared frame of six rows, for examples. *)
Definition labelled : frame := {|
  columns := ["sentiment"; "text"];
  rows :=
    [ [Some "Positive"; Some "so good"];
      [Some "Negative"; Some "so bad"];
      [Some "Neutral"; Some "a game"];
      [Some "Positive"; Some "good game"];
      [Some "Negative"; Some "bad game"];
      [Some "Positive"; Some "good"] ];
|}.

End Split.


(* ===================================================================== *)
(** * Properties of the workflow *)
(* ===================================================================== *)

Section workflow_facts.
Import Workflow.

Lemma master_is_literal :
  Forall (λ pat, is_literal pat = true) (on_push_branches pages_deploy).
Proof. repeat constructor. Qed.




(** ** Steps run one at a time *)

Lemma open_steps_start_end i tr :
  foldl step_open [] (StepStart i :: StepEnd i :: tr) = foldl step_open [] tr.
Proof.
  simpl. rewrite filter_cons_False by (intros H; by apply H). done.
Qed.

Lemma steps_one_at_a_time_from a n tr :
  tr `prefix_of` flat_map (λ i, [StepStart i; StepEnd i]) (seq a n) →
  length (open_steps tr) ≤ 1.
Proof.
  unfold open_steps. revert a tr. induction n as [|n IH]; intros a tr Hpre.
  - simpl in Hpre. apply prefix_nil_inv in Hpre as ->. simpl. lia.
  - simpl in Hpre. destruct tr as [|e1 [|e2 tr]]; [simpl; lia| |].
    + apply prefix_cons_inv_1 in Hpre as ->. simpl. lia.
    + pose proof (prefix_cons_inv_1 _ _ _ _ Hpre) as ->.
      apply prefix_cons_inv_2 in Hpre.
      pose proof (prefix_cons_inv_1 _ _ _ _ Hpre) as ->.
      apply prefix_cons_inv_2 in Hpre.
      rewrite open_steps_start_end. by apply (IH (S a)).
Qed.

(** ** The concurrency group admits one run in progress *)

Lemma in_progress_cons r rs :
  in_progress (r :: rs)
  = (if has_status InProgress r then 1 else 0) + in_progress rs.
Proof.
  unfold in_progress, has_status. rewrite filter_cons.
  case_decide; [rewrite bool_decide_eq_true_2|rewrite bool_decide_eq_false_2];
    done.
Qed.

Lemma in_progress_app rs1 rs2 :
  in_progress (rs1 ++ rs2) = in_progress rs1 + in_progress rs2.
Proof. unfold in_progress. by rewrite filter_app, length_app. Qed.

Lemma in_progress_none rs :
  existsb (has_status InProgress) rs = false → in_progress rs = 0.
Proof.
  induction rs as [|r rs IH]; [done|]. simpl.
  intros [Hr Hrs]%orb_false_elim. rewrite in_progress_cons, Hr. auto.
Qed.

Lemma in_progress_cancel_running rs :
  in_progress (set_status (has_status InProgress) Cancelled rs) = 0.
Proof.
  induction rs as [|r rs IH]; [done|]. simpl. rewrite in_progress_cons, IH.
  destruct (has_status InProgress r) eqn:Hr; [done|]. by rewrite Hr.
Qed.

Lemma in_progress_cancel_pending rs :
  in_progress (set_status (has_status Pending) Cancelled rs) = in_progress rs.
Proof.
  induction rs as [|r rs IH]; [done|]. simpl.
  rewrite !in_progress_cons, IH. f_equal.
  destruct r as [id []]; reflexivity.
Qed.

Lemma in_progress_finish id rs :
  existsb (finishing id) rs = true →
  in_progress rs ≤ 1 →
  in_progress (set_status (finishing id) Completed rs) = 0.
Proof.
  induction rs as [|r rs IH]; [done|]. simpl.
  rewrite !in_progress_cons. intros Hex Hle.
  destruct (finishing id r) eqn:Hfin.
  - apply andb_true_iff in Hfin as [_ Hr]. rewrite Hr in Hle.
    assert (in_progress rs = 0) as H0 by lia. simpl.
    clear -H0. induction rs as [|r' rs IH]; [done|].
    rewrite in_progress_cons in H0. simpl. rewrite in_progress_cons.
    destruct (finishing id r') eqn:Hf'; simpl.
    + apply IH. lia.
    + destruct (has_status InProgress r'); [lia|]. apply IH. lia.
  - simpl in Hex. unfold finishing in Hfin.
    destruct (has_status InProgress r) eqn:Hr.
    + rewrite IH; [| done | lia]. exfalso.
      assert (in_progress rs = 0) as H0 by lia.
      clear -Hex H0. induction rs as [|r' rs IH]; [done|].
      rewrite in_progress_cons in H0. simpl in Hex.
      apply orb_true_iff in Hex as [Hf|Hex].
      * apply andb_true_iff in Hf as [_ Hf]. rewrite Hf in H0. lia.
      * apply IH; [done|lia].
    + apply IH; [done|lia].
Qed.

Lemma in_progress_start_pending rs :
  in_progress (start_pending rs) ≤ S (in_progress rs).
Proof.
  induction rs as [|r rs IH]; [simpl; lia|]. simpl.
  destruct (has_status Pending r) eqn:Hr.
  - rewrite !in_progress_cons. simpl. destruct (has_status InProgress r); lia.
  - rewrite !in_progress_cons. lia.
Qed.

Lemma sched_step_in_progress c rs e :
  in_progress rs ≤ 1 → in_progress (sched_step c rs e) ≤ 1.
Proof.
  intros Hle. destruct e as [id|id]; simpl.
  - unfold on_queued. destruct (existsb _ rs) eqn:Hex.
    + destruct (cancel_in_progress c).
      * rewrite in_progress_app, in_progress_cancel_running. done.
      * rewrite in_progress_app, in_progress_cancel_pending.
        change (in_progress [new_run id Pending]) with 0. lia.
    + rewrite in_progress_app, in_progress_none by done. done.
  - unfold on_finished. destruct (existsb _ rs) eqn:Hex; [|done].
    pose proof (in_progress_start_pending
                  (set_status (finishing id) Completed rs)) as H.
    rewrite in_progress_finish in H by done. done.
Qed.

Lemma schedule_snoc c evs e :
  schedule c (evs ++ [e]) = sched_step c (schedule c evs) e.
Proof. unfold schedule. by rewrite foldl_app. Qed.

Lemma schedule_in_progress c evs : in_progress (schedule c evs) ≤ 1.
Proof.
  induction evs as [|e evs IH] using rev_ind; [cbv; lia|].
  rewrite schedule_snoc. by apply sched_step_in_progress.
Qed.

Lemma queued_keeps_running c id rs i r :
  cancel_in_progress c = false →
  rs !! i = Some r → run_status r = InProgress →
  on_queued c id rs !! i = Some r.
Proof.
  intros Hc Hi Hr. unfold on_queued. rewrite Hc.
  destruct (existsb _ rs).
  - rewrite lookup_app_l by (unfold set_status; rewrite length_map;
                             by eapply lookup_lt_Some).
    unfold set_status. rewrite list_lookup_fmap, Hi. simpl.
    unfold has_status. by rewrite Hr.
  - apply lookup_app_l_Some, Hi.
Qed.

(** C7: the workflow has the single job [deploy], run once per workflow
    run (no matrix); at every point of the job at most one step is
    under way; whatever runs are queued and finish, at most one run of
    the concurrency group is in progress; and a run in progress stays in
    progress when a new run is queued. *)
Theorem deploy_is_serial :
  wf_jobs pages_deploy = [deploy]
  ∧ job_instances deploy = 1
  ∧ (∀ tr, tr `prefix_of` job_trace deploy → length (open_steps tr) ≤ 1)
  ∧ (∀ evs, in_progress (schedule (wf_concurrency pages_deploy) evs) ≤ 1)
  ∧ (∀ evs id i r,
       schedule (wf_concurrency pages_deploy) evs !! i = Some r →
       run_status r = InProgress →
       schedule (wf_concurrency pages_deploy) (evs ++ [Queued id]) !! i
       = Some r).
Proof.
  split_and!; [done | done | | |].
  - intros tr. apply steps_one_at_a_time_from.
  - apply schedule_in_progress.
  - intros evs id i r Hi Hr. rewrite schedule_snoc. simpl.
    by apply queued_keeps_running.
Qed.

(** Three runs queued before the first one ends: the second is
    cancelled while pending, not the one in progress. *)
Lemma deploy_is_serial_witness :
  schedule (wf_concurrency pages_deploy) [Queued 1; Queued 2; Queued 3]
  = [new_run 1 InProgress; new_run 2 Cancelled; new_run 3 Pending]
  ∧ schedule (wf_concurrency pages_deploy) [Queued 1; Queued 2] !! 0
    = Some (new_run 1 InProgress).
Proof.
  split; [reflexivity|].
  exact (proj2 (proj2 (proj2 (proj2 deploy_is_serial))) [Queued 1] 2 0
           (new_run 1 InProgress) eq_refl eq_refl).
Defined.

End workflow_facts.

(* ===================================================================== *)
(** * Properties of the exception semantics *)
(* ===================================================================== *)

Section exec_facts.
Import Py.

Lemma and_then_ext f g g' st :
  (∀ st', g st' = g' st') → and_then f g st = and_then f g' st.
Proof. intros H. unfold and_then. destruct (f st) as [st1 []]; auto. Qed.

Lemma and_then_ext_l f f' g st :
  (∀ st', f st' = f' st') → and_then f g st = and_then f' g st.
Proof. intros H. unfold and_then. by rewrite H. Qed.


(** The equations of [exec], with the blocks run by [exec_block]. *)
Lemma exec_block_cons w s b st :
  exec_block w (s :: b) st = and_then (exec w s) (exec_block w b) st.
Proof. done. Qed.



Lemma exec_with w c a body st :
  exec w (SWith c a body) st = and_then (tick w) (exec_block w body) st.
Proof.
  cbn [exec]. apply and_then_ext.
  clear. induction body as [|s b IH]; intros st; [done|].
  rewrite exec_block_cons. by apply and_then_ext.
Qed.


(** ** Propagation *)








(** ** Cells *)







(** ** What reaches the top level *)










(** ** Straight-line code *)

Lemma tick_same_raises w w' st : same_raises w w' → tick w st = tick w' st.
Proof. intros H. unfold tick. by rewrite H. Qed.

Lemma exec_block_same (w w' : world) b :
  Forall (λ s, ∀ st, exec w s st = exec w' s st) b →
  ∀ st, exec_block w b st = exec_block w' b st.
Proof.
  induction 1 as [|s b Hs Hb IH]; intros st; [done|].
  rewrite !exec_block_cons. rewrite (and_then_ext_l _ _ _ _ Hs).
  by apply and_then_ext.
Qed.

Lemma straight_block (P : stmt → Prop) b :
  Forall (λ s, straight s = true → P s) b →
  existsb conditional b = false → sum_list (map loops b) = 0 → Forall P b.
Proof.
  induction 1 as [|s b Hs Hb IH]; simpl; [constructor|].
  intros [H1 H2]%orb_false_elim Hl. constructor.
  - apply Hs. unfold straight. rewrite H1. simpl. apply Nat.eqb_eq. lia.
  - apply IH; [done|lia].
Qed.

(** Straight-line code runs the same way whatever the data: only what
    raises can change the course of the run. *)
Lemma exec_straight w w' s :
  same_raises w w' → straight s = true → ∀ st, exec w s st = exec w' s st.
Proof.
  intros Hw.
  induction s as [s|n ps body IH|t i body IH|c body IH|c b1 b2 IH1 IH2
                 |c a body IH|b f h IH1 IH2] using stmt_block_ind;
    unfold straight; cbn [conditional loops];
    intros [Hc Hl]%andb_true_iff st;
    try apply negb_true_iff in Hc; try apply Nat.eqb_eq in Hl;
    try discriminate.
  - by apply tick_same_raises.
  - by apply tick_same_raises.
  - apply orb_false_elim in Hc as [_ Hc]. rewrite !exec_with.
    rewrite (and_then_ext_l _ _ _ _ (λ st', tick_same_raises w w' st' Hw)).
    apply and_then_ext. apply exec_block_same. by apply straight_block.
Qed.

Lemma exec_block_straight w w' b :
  same_raises w w' → forallb straight b = true →
  ∀ st, exec_block w b st = exec_block w' b st.
Proof.
  intros Hw Hs. apply exec_block_same. apply Forall_forall. intros s Hin st.
  apply exec_straight; [done|].
  eapply forallb_forall in Hs; [done|]. by apply list_elem_of_In.
Qed.

Lemma exec_cell_straight w w' c :
  same_raises w w' → forallb straight (cell_code c) = true →
  ∀ st, exec_cell w c st = exec_cell w' c st.
Proof.
  intros Hw Hs st. unfold exec_cell.
  pose proof (exec_block_straight w w' _ Hw Hs) as Hblock.
  destruct (cell_code c) as [|s body]; [done|].
  assert (∀ st, exec_block w body st = exec_block w' body st) as Hbody.
  { apply exec_block_straight; [done|]. simpl in Hs.
    by apply andb_true_iff in Hs as [_ ?]. }
  destruct s as [[line| | | | |]| | | | | |]; try done.
  destruct (capturing line); [|done].
  rewrite (and_then_ext_l _ _ _ _ (λ st', tick_same_raises w w' st' Hw)).
  apply and_then_ext. intros st'. unfold swallow. by rewrite Hbody.
Qed.

Lemma run_straight w w' nb :
  same_raises w w' → forallb straight (program nb) = true →
  run w nb = run w' nb.
Proof.
  intros Hw. unfold run, program. generalize start.
  induction (nb_cells nb) as [|c cells IH]; intros st Hs; simpl; [done|].
  simpl in Hs. rewrite forallb_app in Hs. apply andb_true_iff in Hs as [Hc Hcells].
  rewrite (and_then_ext_l _ _ _ _ (exec_cell_straight w w' c Hw Hc)).
  apply and_then_ext. intros st'. by apply IH.
Qed.

(** ** The first exception of a run of simple statements

    A simple statement is one evaluation, so that in a block of simple
    statements the evaluations and the statements have the same
    numbers, up to the first exception. *)













End exec_facts.

(* ===================================================================== *)
(** * Properties of the notebooks *)
(* ===================================================================== *)

Section notebook_facts.
Import Py Notebooks.
Local Abbreviation v := EName.

(** ** Control flow and names *)


(** C2, as amended: no notebook has a [while] loop; the LSTM and the
    transformer notebook have no exception handler, and the only one of
    the logistic-regression notebook is the [%%capture] of its search
    cell; the logistic-regression and transformer notebooks have no
    conditional and no loop, read only names they bind or import (or
    builtins), and run the same way whatever the data; the LSTM
    notebook has one compound statement with a condition, the [for]
    loop of its embedding cell with the [if] inside it.  The LSTM and
    the transformer notebook import no module for threads, processes or
    coroutines and ask no call for workers; the logistic-regression
    notebook imports [parallel_backend] of [joblib], which it never
    uses, and asks its search for [n_jobs=-1]: as many workers as the
    machine has processors. *)
Theorem notebooks_control_flow :
  Forall (λ nb, forallb while_free (program nb) = true) notebooks
  ∧ Forall (λ nb, forallb handler_free (program nb) = true) [lstm; roberta]
  ∧ handlers logreg = [Simple (Magic "%%capture --no-stdout")]
  ∧ Forall (λ nb, forallb straight (program nb) = true
                  ∧ undefined_names nb = []
                  ∧ ∀ w w', same_raises w w' → run w nb = run w' nb)
      [logreg; roberta]
  ∧ List.filter (λ s, negb (straight s)) (program lstm) = [embedding_loop]
  ∧ loops embedding_loop = 1 ∧ ifs embedding_loop = 1
  ∧ Forall (λ nb, concurrent_imports nb = [] ∧ parallel_requests nb = [])
      [lstm; roberta]
  ∧ concurrent_imports logreg
    = [FromImport "joblib" [("parallel_backend", None)]]
  ∧ mentions "parallel_backend" logreg = 1
  ∧ ∃ search, parallel_requests logreg = [search]
      ∧ callee search = Some ["RandomizedSearchCV"]
      ∧ Search.n_jobs search = Some (-1)%Z
      ∧ ∀ cpus, Search.workers (S cpus) search = Some (S cpus).
Proof.
  split_and!; [by repeat constructor..| | | | | | | |].
  - repeat constructor; try reflexivity.
    + intros w w' Hw. by apply run_straight.
    + intros w w' Hw. by apply run_straight.
  - reflexivity.
  - reflexivity.
  - reflexivity.
  - by repeat constructor.
  - reflexivity.
  - reflexivity.
  - eexists. split; [reflexivity|]. split; [reflexivity|].
    split; [reflexivity|]. intros cpus. unfold Search.workers.
    change (Search.n_jobs _) with (Some (-1)%Z). cbv beta iota.
    rewrite decide_False, decide_False by lia. f_equal. lia.
Qed.

(** A run of the transformer notebook does not depend on how often a
    loop would go round. *)
Lemma notebooks_control_flow_witness :
  run no_words roberta = run two_words roberta.
Proof.
  pose proof notebooks_control_flow as (_ & _ & _ & H & _).
  apply Forall_cons in H as [_ H]. apply Forall_cons in H as [(_ & _ & H) _].
  apply H. intros k. reflexivity.
Defined.

(** C2 as stated fails on the LSTM notebook: it is not free of
    conditionals, and a fresh interpreter cannot resolve [wv] and [np];
    its run depends on the data. *)
Lemma lstm_not_standalone :
  standalone lstm = false
  ∧ existsb conditional (program lstm) = true
  ∧ undefined_names lstm = ["wv"; "np"; "wv"; "wv"; "np"; "wv"; "np"; "np"]
  ∧ length (trace (run no_words lstm).1)
    ≠ length (trace (run two_words lstm).1).
Proof. split_and!; [reflexivity..|]. vm_compute. lia. Qed.

(** ** Failures *)





(** With a handler the same failure would not reach the top level. *)
Lemma retrying_swallows :
  (exec_block download_fails retrying {| clock := 2; trace := [] |}).2 = Normal.
Proof. reflexivity. Qed.

(** ** The transformer notebook *)

Lemma roberta_model_uses :
  uses "model" roberta
  = [ Bound
        (ECall (EAttr (v "RobertaForSequenceClassification") "from_pretrained")
           [EStr "distilbert/distilroberta-base"]
           [("num_labels", call (v "len") [v "class_names"])]);
      AttrSet ["config"; "attention_probs_dropout_prob"] (EFloat "0.3");
      AttrSet ["config"; "hidden_dropout_prob"] (EFloat "0.3");
      MethodCall ["compile"] []
        [("optimizer", v "optimizer"); ("metrics", EList [EStr "accuracy"])];
      MethodCall ["fit"]
        [ call (v "tokenize") [method (v "x_train") "tolist" []];
          method (v "np") "array" [ESubscript (v "train") (EStr "label")] ]
        [("epochs", EInt 3); ("batch_size", EInt 32);
         ("validation_split", EFloat "0.2")];
      MethodCall ["predict"]
        [ call (v "tokenize") [method (v "x_test") "tolist" []] ]
        [("verbose", EBool true)] ].
Proof. vm_compute. reflexivity. Qed.

(** C3: the transformer notebook loads the tokenizer and the model from
    [transformers] under the one name [distilbert/distilroberta-base];
    what it then does to the model is, in this order, set two fields of
    its configuration, compile it, fit it and predict with it; the two
    nothing else in the notebook names the model; the two fields are
    [attention_probs_dropout_prob] and [hidden_dropout_prob], both set
    to 0.3, and every other field keeps the value the model was loaded
    with; [fit] and [predict] are given the output of the notebook's
    [tokenize], which applies the loaded tokenizer. *)
Theorem roberta_setup :
  let name := EStr "distilbert/distilroberta-base" in
  let tokenizer := method (v "RobertaTokenizerFast") "from_pretrained" [name] in
  (λ c, call_args c.2) <$>
    calls_to ["RobertaTokenizerFast"; "from_pretrained"] roberta = [[name]]
  ∧ (λ c, call_args c.2) <$>
      calls_to ["RobertaForSequenceClassification"; "from_pretrained"] roberta
    = [[name]]
  ∧ imported_from "RobertaTokenizerFast" roberta = ["transformers"]
  ∧ imported_from "RobertaForSequenceClassification" roberta = ["transformers"]
  ∧ use_kind <$> uses "model" roberta
    = ["="; ".="; ".="; "compile"; "fit"; "predict"]
  ∧ mentions "model" roberta = length (uses "model" roberta)
  ∧ omap config_use (uses "model" roberta)
    = [["attention_probs_dropout_prob"]; ["hidden_dropout_prob"]]
  ∧ (∀ (cfg : gmap string expr) field,
       config_after "model" roberta cfg !! field
       = if decide (field = "attention_probs_dropout_prob"
                    ∨ field = "hidden_dropout_prob")
         then Some (EFloat "0.3") else cfg !! field)
  ∧ Network.first_arg <$> Network.method_calls "fit" roberta
    = [Some (call (v "tokenize") [method (v "x_train") "tolist" []])]
  ∧ Network.first_arg <$> Network.method_calls "predict" roberta
    = [Some (call (v "tokenize") [method (v "x_test") "tolist" []])]
  ∧ (λ c, c.1 !! "tokenizer") <$> calls_to ["tokenizer"] roberta
    = [Some tokenizer].
Proof.
  split_and!; try (vm_compute; reflexivity).
  intros cfg field. unfold config_after. rewrite roberta_model_uses.
  cbn [foldl config_set]. case_decide as Hf.
  - destruct Hf as [->| ->].
    + by rewrite lookup_insert_ne, lookup_insert_eq.
    + by rewrite lookup_insert_eq.
  - rewrite !lookup_insert_ne by naive_solver. done.
Qed.

(** ** The LSTM notebook *)

(** C4: the model of the LSTM notebook is a [Sequential] of an
    [Embedding], an [LSTM], a [Dropout] and a [Dense] layer of
    [tensorflow.keras], in this order; the notebook binds it once,
    compiles it, fits it by one call to [fit], whose [callbacks] list
    holds an [EarlyStopping] of [tensorflow.keras.callbacks], predicts
    with it, and names it nowhere else. *)
Theorem lstm_network :
  Network.network lstm
  = Some [ Some ["layers"; "Embedding"]; Some ["layers"; "LSTM"];
           Some ["layers"; "Dropout"]; Some ["layers"; "Dense"] ]
  ∧ imported_from "layers" lstm = ["tensorflow.keras"]
  ∧ imported_from "Sequential" lstm = ["tensorflow.keras"]
  ∧ use_kind <$> uses "model" lstm = ["="; "compile"; "fit"; "predict"]
  ∧ mentions "model" lstm = length (uses "model" lstm)
  ∧ length (Network.method_calls "fit" lstm) = 1
  ∧ Network.callbacks <$> Network.method_calls "fit" lstm
    = [[Some ["EarlyStopping"]]]
  ∧ imported_from "EarlyStopping" lstm = ["tensorflow.keras.callbacks"].
Proof. split_and!; vm_compute; reflexivity. Qed.

(** ** The logistic-regression notebook *)

Lemma length_grid_points axes :
  length (Search.grid_points axes) = Search.grid_size axes.
Proof.
  induction axes as [|[name values] rest IH]; [done|]. simpl.
  rewrite <- IH. clear IH.
  induction values as [|val values IH]; [done|]. simpl.
  rewrite length_app, length_map, IH. done.
Qed.

(** C5: the pipeline of the logistic-regression notebook has the stages
    [CountVectorizer], [StandardScaler], [LogisticRegression], in this
    order; its hyperparameters are searched by a [RandomizedSearchCV]
    over that pipeline and the grid of cell 12, which has 96
    combinations, of which the search tries 10. *)
Theorem logreg_pipeline_and_search :
  Search.pipeline_stages logreg
  = Some [ ("vectorizer", ["CountVectorizer"]);
           ("scaler", ["StandardScaler"]);
           ("classifier", ["LogisticRegression"]) ]
  ∧ imported_from "CountVectorizer" logreg = ["sklearn.feature_extraction.text"]
  ∧ imported_from "StandardScaler" logreg = ["sklearn.preprocessing"]
  ∧ imported_from "LogisticRegression" logreg = ["sklearn.linear_model"]
  ∧ imported_from "RandomizedSearchCV" logreg = ["sklearn.model_selection"]
  ∧ callee <$> Search.search_estimator logreg = Some (Some ["Pipeline"])
  ∧ use_kind <$> uses "cv" logreg = ["="; "fit"; "predict"; "items"]
  ∧ ∃ search axes,
      Search.search_call logreg = Some (search, param_grid)
      ∧ Search.grid_axes param_grid = Some axes
      ∧ length (Search.grid_points axes) = 96
      ∧ Search.candidates search axes = 10.
Proof.
  split_and!; try (vm_compute; reflexivity).
  eexists _, _. split_and!; [vm_compute; reflexivity..| |].
  - rewrite length_grid_points. reflexivity.
  - reflexivity.
Qed.

End notebook_facts.

(* ===================================================================== *)
(** * Properties of the embedding matrix *)
(* ===================================================================== *)

Section embedding_facts.
Import Embedding.
Context {F : Type} (zero : F).

Abbreviation sized wv := (Forall (λ row : list F, length row = vector_size wv)).

Lemma length_expected_row (wv : keyed_vectors F) word :
  vectors_sized wv → length (expected_row zero wv word) = vector_size wv.
Proof.
  intros Hwv. unfold expected_row.
  destruct (vectors wv !! word) as [vec|] eqn:Hw; simpl.
  - by eapply Hwv.
  - apply length_replicate.
Qed.

(** Both branches of the loop body store the expected row. *)
Lemma embed_word_set_row (wv : keyed_vectors F) matrix word index :
  embed_word zero wv matrix (word, index)
  = set_row matrix index (expected_row zero wv word).
Proof.
  unfold embed_word, contains, get_vector, expected_row.
  by destruct (vectors wv !! word) as [vec|].
Qed.

Lemma set_row_in_range (wv : keyed_vectors F) matrix index (vec : list F) :
  (0 ≤ index < Z.of_nat (length matrix))%Z →
  sized wv matrix → length vec = vector_size wv →
  set_row matrix index vec = Ok (<[Z.to_nat index := vec]> matrix).
Proof.
  intros Hi Hm Hvec. unfold set_row, row_index. cbn zeta.
  rewrite decide_True by done. simpl.
  destruct (lookup_lt_is_Some_2 matrix (Z.to_nat index)) as [row Hrow]; [lia|].
  rewrite Hrow. simpl. unfold broadcast.
  rewrite decide_True; [done|].
  rewrite Hvec. eapply Forall_lookup_1 in Hm; [|done]. done.
Qed.

Lemma embed_words_rows (wv : keyed_vectors F) items : ∀ matrix,
  vectors_sized wv →
  sized wv matrix →
  NoDup items.*2 →
  (∀ word index, (word, index) ∈ items →
     (1 ≤ index < Z.of_nat (length matrix))%Z) →
  ∃ m, embed_words zero wv items matrix = Ok m
       ∧ length m = length matrix
       ∧ (∀ word index, (word, index) ∈ items →
            m !! Z.to_nat index = Some (expected_row zero wv word))
       ∧ (∀ j, Z.of_nat j ∉ items.*2 → m !! j = matrix !! j).
Proof.
  induction items as [|[w i] rest IH]; intros matrix Hwv Hm Hnd Hrange.
  - exists matrix. split_and!; [done..| |done].
    intros word index Hin. by apply elem_of_nil in Hin.
  - cbn [embed_words]. rewrite embed_word_set_row.
    assert (1 ≤ i < Z.of_nat (length matrix))%Z as Hi
      by (apply (Hrange w); left).
    rewrite (set_row_in_range wv);
      [|lia|done|by apply length_expected_row].
    simpl. rewrite fmap_cons in Hnd. apply NoDup_cons in Hnd as [Hi_rest Hnd].
    destruct (IH (<[Z.to_nat i := expected_row zero wv w]> matrix))
      as (m & Hrun & Hlen & Hrows & Hother); [done| |done| |].
    { apply Forall_insert; [done|]. by apply length_expected_row. }
    { intros word index Hin. rewrite length_insert.
      apply (Hrange word). by right. }
    rewrite length_insert in Hlen.
    exists m. split_and!; [done..| |].
    + intros word index [Heq|Hin]%elem_of_cons.
      * simplify_eq. rewrite Hother by (rewrite Z2Nat.id by lia; done).
        apply list_lookup_insert_eq. lia.
      * by apply Hrows.
    + intros j Hj. apply not_elem_of_cons in Hj as [Hji Hj].
      rewrite Hother by done. apply list_lookup_insert_ne. simpl in Hji. lia.
Qed.

(** C8: given vectors of one size and a word index that numbers its
    words from 1, each index once, the loop ends without an error; the
    matrix has one row more than there are words; the row at the index
    of a word is the vector of the word when the vectors have the word,
    and the zero row otherwise; row 0 is the zero row. *)
Theorem embedding_matrix_rows (word_index : list (string * Z))
    (wv : keyed_vectors F) :
  vectors_sized wv → numbered word_index →
  ∃ m, embedding_matrix zero word_index wv = Ok m
       ∧ length m = length word_index + 1
       ∧ (∀ word index, (word, index) ∈ word_index →
            m !! Z.to_nat index
            = Some (match vectors wv !! word with
                    | Some vec => vec
                    | None => zeros zero (vector_size wv)
                    end))
       ∧ m !! 0 = Some (zeros zero (vector_size wv)).
Proof.
  intros Hwv [Hnd Hrange]. unfold embedding_matrix. cbn zeta.
  destruct (embed_words_rows wv word_index
              (zeros2 zero (length word_index + 1, vector_size wv)))
    as (m & Hrun & Hlen & Hrows & Hother); [done| |done| |].
  { unfold zeros2. simpl. apply Forall_replicate, length_replicate. }
  { intros word index Hin. unfold zeros2. simpl. rewrite length_replicate.
    specialize (Hrange word index Hin). lia. }
  unfold zeros2 in Hlen. simpl in Hlen. rewrite length_replicate in Hlen.
  exists m. split_and!; [done..| |].
  - intros word index Hin. rewrite (Hrows word index Hin).
    unfold expected_row. by destruct (vectors wv !! word).
  - rewrite Hother.
    + unfold zeros2. simpl. apply lookup_replicate_2. lia.
    + intros Hin. apply list_elem_of_fmap in Hin as ([word index] & Heq & Hin).
      simpl in Heq. specialize (Hrange word index Hin). lia.
Qed.

End embedding_facts.

(** A vocabulary of two words, one of which has a vector. *)
Lemma embedding_matrix_rows_witness :
  ∃ m, Embedding.embedding_matrix 0%Z [("the", 1%Z); ("cat", 2%Z)]
         {| Embedding.vector_size := 2;
            Embedding.vectors := {[ "the" := [5; 6]%Z ]} |} = Embedding.Ok m
       ∧ m = [[0; 0]; [5; 6]; [0; 0]]%Z.
Proof.
  destruct (embedding_matrix_rows 0%Z [("the", 1%Z); ("cat", 2%Z)]
              {| Embedding.vector_size := 2;
                 Embedding.vectors := {[ "the" := [5; 6]%Z ]} |})
    as (m & Hrun & _).
  - intros word vec Hw. simpl in Hw.
    apply lookup_singleton_Some in Hw as [_ <-]. reflexivity.
  - split.
    + apply (bool_decide_unpack _). vm_compute. exact I.
    + intros word index Hin. simpl.
      repeat (apply elem_of_cons in Hin as [Hin|Hin]; [simplify_eq; lia|]).
      by apply elem_of_nil in Hin.
  - exists m. split; [done|]. vm_compute in Hrun. congruence.
Defined.

(* ===================================================================== *)
(** * Properties of the padding *)
(* ===================================================================== *)

Section padding_facts.
Import Padding.

Lemma slice_from_last {A} (n : nat) (s : list A) :
  slice_from (- Z.of_nat n) s
  = if decide (n = 0) then s else drop (length s - n) s.
Proof.
  unfold slice_from. cbn zeta. destruct (decide (n = 0)) as [->|Hn].
  - rewrite decide_False by lia.
    replace (Z.to_nat _) with 0 by lia. done.
  - rewrite decide_True by lia. f_equal. lia.
Qed.

Lemma store_from_end {A} (vals row : list A) :
  0 < length vals ≤ length row →
  store_from (- Z.of_nat (length vals)) vals row
  = Some (take (length row - length vals) row ++ vals).
Proof.
  intros Hlen. unfold store_from. cbn zeta.
  destruct (decide (- Z.of_nat (length vals) < 0)%Z) as [_|]; [|lia].
  replace (Z.to_nat _) with (length row - length vals) by lia.
  destruct (decide (length vals = length row - (length row - length vals)))
    as [_|]; [done|lia].
Qed.

(** With defaults for everything but a positive [maxlen], a row holds
    the last [maxlen] tokens of the sequence, or all of them after
    padding values. *)
Lemma pad_row_pre n value (s : list Z) :
  0 < n →
  pad_row n Pre Pre value s
  = Some (if decide (n < length s)
          then drop (length s - n) s
          else replicate (n - length s) value ++ s).
Proof.
  intros Hn. unfold pad_row. cbn zeta. case_decide as Hs.
  - apply nil_length_inv in Hs as ->. simpl.
    by rewrite Nat.sub_0_r, app_nil_r.
  - rewrite slice_from_last, decide_False by lia.
    rewrite store_from_end by (rewrite length_replicate, length_drop; lia).
    f_equal. rewrite length_replicate, length_drop, take_replicate.
    case_decide.
    + replace (_ `min` n) with 0 by lia. done.
    + replace (length s - n) with 0 by lia. simpl. f_equal. f_equal. lia.
Qed.

Lemma mapM_total {A B} (f : A → option B) (g : A → B) l :
  (∀ x, f x = Some (g x)) → mapM f l = Some (g <$> l).
Proof.
  intros Hf. induction l as [|x l IH]; [done|].
  simpl. rewrite Hf. simpl. rewrite IH. done.
Qed.

Lemma padded_last_tokens sequences :
  padded sequences = Some (last_tokens maxlen <$> sequences).
Proof.
  unfold padded, pad_sequences. simpl. apply mapM_total. intros s.
  rewrite pad_row_pre by (unfold maxlen; lia). done.
Qed.

Lemma length_last_tokens n s : length (last_tokens n s) = n.
Proof.
  unfold last_tokens. case_decide.
  - rewrite length_drop. lia.
  - rewrite length_app, length_replicate. lia.
Qed.

(** ** The rows as [int32] *)

Lemma trunc_pre n (s : list Z) :
  0 < n → trunc n Pre s = drop (length s - n) s.
Proof.
  intros Hn. unfold trunc. rewrite slice_from_last. by rewrite decide_False by lia.
Qed.

(** Where the tokens kept fit the element type, the rows are those of
    [pad_row]. *)
Lemma pad_row_as_pre t n value (s : list Z) :
  0 < n → Forall (fits t) (drop (length s - n) s) →
  pad_row_as t n Pre Pre value s
  = inr (if decide (n < length s)
         then drop (length s - n) s
         else replicate (n - length s) value ++ s).
Proof.
  intros Hn Hfits. unfold pad_row_as. case_decide as Hs.
  - apply nil_length_inv in Hs as ->. simpl.
    by rewrite Nat.sub_0_r, app_nil_r.
  - rewrite trunc_pre by done. rewrite decide_True by done.
    by rewrite pad_row_pre.
Qed.

(** A token kept that does not fit ends the call. *)
Lemma pad_row_as_overflow t n padding value (s : list Z) :
  0 < n → ¬ Forall (fits t) (drop (length s - n) s) →
  pad_row_as t n padding Pre value s = inl OverflowError.
Proof.
  intros Hn Hfits. unfold pad_row_as. case_decide as Hs.
  - apply nil_length_inv in Hs as ->. destruct Hfits. constructor.
  - rewrite trunc_pre by done. by rewrite decide_False.
Qed.

Lemma pad_rows_as_total t n padding truncating value (g : list Z → list Z)
    sequences :
  Forall (λ s, pad_row_as t n padding truncating value s = inr (g s))
    sequences →
  pad_rows_as t n padding truncating value sequences = inr (g <$> sequences).
Proof.
  induction 1 as [|s rest Hs Hrest IH]; [done|].
  simpl. by rewrite Hs, IH.
Qed.

Lemma padded_int32_last_tokens sequences :
  Forall (λ s, Forall (fits Int32) (drop (length s - 96) s)) sequences →
  padded_int32 sequences = inr (last_tokens maxlen <$> sequences).
Proof.
  intros Hfits. unfold padded_int32, pad_sequences_as. simpl.
  apply pad_rows_as_total. eapply Forall_impl; [done|]. intros s Hs. simpl in Hs.
  rewrite pad_row_as_pre by (unfold maxlen; first [lia|done]). done.
Qed.

(** Within the range of [int32] the two descriptions of the call
    agree. *)
Lemma padded_int32_padded sequences :
  Forall (λ s, Forall (fits Int32) (drop (length s - 96) s)) sequences →
  ∃ rows, padded_int32 sequences = inr rows ∧ padded sequences = Some rows.
Proof.
  intros Hfits. exists (last_tokens maxlen <$> sequences).
  split; [by apply padded_int32_last_tokens|apply padded_last_tokens].
Qed.

Lemma last_tokens_fits n s :
  Forall (fits Int32) (drop (length s - n) s) →
  Forall (fits Int32) (last_tokens n s).
Proof.
  intros Hfits. unfold last_tokens. case_decide; [done|].
  replace (length s - n) with 0 in Hfits by lia. rewrite drop_0 in Hfits.
  apply Forall_app. split; [|done]. apply Forall_replicate. simpl. lia.
Qed.

(** C9: the LSTM notebook pads the token sequences of [x_train] and of
    [x_test] with [maxlen] 96 and no other keyword, so with rows of
    [int32]; for any token sequences whose last 96 tokens are within
    the range of [int32] the call returns one row per sequence, each of
    96 numbers of that range; the row of a sequence of more than 96
    tokens is its last 96 tokens, the row of a shorter one is the
    sequence behind enough zeros; so of a sequence that ends in 96
    tokens [kept], the tokens before [kept] are not in the row. *)
Theorem padded_rows (sequences : list (list Z)) :
  Forall (λ s, Forall (fits Int32) (drop (length s - 96) s)) sequences →
  pad_calls Notebooks.lstm
  = [ ([Py.method (Py.EName "tokenizer") "texts_to_sequences"
          [Py.EName "x_train"]], [("maxlen", Py.EInt 96)]);
      ([Py.method (Py.EName "tokenizer") "texts_to_sequences"
          [Py.EName "x_test"]], [("maxlen", Py.EInt 96)]) ]
  ∧ ∃ rows, padded_int32 sequences = inr rows
    ∧ length rows = length sequences
    ∧ Forall (λ row, length row = 96 ∧ Forall (fits Int32) row) rows
    ∧ (∀ i s, sequences !! i = Some s →
         rows !! i
         = Some (if decide (96 < length s)
                 then drop (length s - 96) s
                 else replicate (96 - length s) 0%Z ++ s))
    ∧ (∀ i cut kept, sequences !! i = Some (cut ++ kept) →
         length kept = 96 → rows !! i = Some kept).
Proof.
  intros Hfits. split; [vm_compute; reflexivity|].
  exists (last_tokens maxlen <$> sequences).
  split_and!.
  - by apply padded_int32_last_tokens.
  - apply length_fmap.
  - apply Forall_fmap. eapply Forall_impl; [done|]. intros s Hs. simpl.
    split; [apply length_last_tokens|by apply last_tokens_fits].
  - intros i s Hi. by rewrite list_lookup_fmap, Hi.
  - intros i cut kept Hi Hlen. rewrite list_lookup_fmap, Hi. simpl. f_equal.
    unfold last_tokens, maxlen. rewrite length_app, Hlen.
    case_decide.
    + replace (length cut + 96 - 96) with (length cut) by lia.
      by rewrite drop_app_length.
    + assert (length cut = 0) as ->%nil_length_inv by lia.
      simpl. replace (96 - 96) with 0 by lia. done.
Qed.

(** A text of a hundred tokens, one of two tokens, and one whose first
    token is too large for a row and is among those cut. *)
Lemma padded_rows_witness :
  ∃ rows, padded_int32 [hundred_tokens; [7; 8]%Z; large_first] = inr rows
    ∧ rows !! 0 = Some (drop 4 hundred_tokens)
    ∧ rows !! 1 = Some (replicate 94 0%Z ++ [7; 8]%Z)
    ∧ rows !! 2 = Some (drop 4 hundred_tokens).
Proof.
  destruct (padded_rows [hundred_tokens; [7; 8]%Z; large_first])
    as (_ & rows & Hrun & _ & _ & Hrows & _).
  - repeat constructor; simpl; lia.
  - exists rows. split_and!; [done|..].
    + apply (Hrows 0 hundred_tokens). reflexivity.
    + apply (Hrows 1 [7; 8]%Z). reflexivity.
    + apply (Hrows 2 large_first). reflexivity.
Defined.

(** The same text without the tokens that follow: the token is kept,
    and the call ends in an [OverflowError]. *)
Lemma padded_int32_overflow :
  padded_int32 [[7; 8]%Z; [2 ^ 31]%Z] = inl OverflowError.
Proof. reflexivity. Qed.

End padding_facts.

(* ===================================================================== *)
(** * Properties of the seeds *)
(* ===================================================================== *)

Section seeding_facts.
Import Py Notebooks Seeding.

Lemma logreg_split_seed :
  seed_of logreg ["ds"; "train_test_split"] "seed" = Some 0%Z.
Proof. vm_compute. reflexivity. Qed.

Lemma logreg_search_seed :
  (λ sg, seed_kw "random_state" sg.1) <$> Search.search_call logreg
  = Some (Some 0%Z).
Proof. vm_compute. reflexivity. Qed.

Lemma lstm_split_seed :
  seed_of lstm ["train_test_split"] "random_state" = None.
Proof. vm_compute. reflexivity. Qed.

(** With its seed, the split of the logistic-regression notebook is
    drawn from the generator the seed determines. *)
Lemma logreg_split_seeded {A} (L : random_lib) (ambient : rng L) (ds : list A) :
  logreg_split L ambient ds = train_test_split L (seeded L 0) ds.
Proof. unfold logreg_split. by rewrite logreg_split_seed. Qed.

Lemma logreg_candidates_seeded (L : random_lib) (ambient : rng L) :
  logreg_candidates L ambient = choose L (seeded L 0) 96 10.
Proof.
  unfold logreg_candidates.
  pose proof logreg_search_seed as Hseed.
  destruct (Search.search_call logreg) as [[search grid]|] eqn:Hcall;
    [|discriminate].
  simpl in Hseed. injection Hseed as Hseed. rewrite Hseed. simpl.
  vm_compute in Hcall. injection Hcall as <- <-. reflexivity.
Qed.

(** Without a seed, the split of the LSTM notebook is drawn from the
    generator of the process. *)
Lemma lstm_split_ambient {A} (L : random_lib) (ambient : rng L) (df : list A) :
  lstm_split L ambient df = train_test_split L ambient df.
Proof. unfold lstm_split. by rewrite lstm_split_seed. Qed.

(** C10: the logistic-regression notebook passes seed 0 to its split and
    to its search, so whatever the state of the process generator, two
    runs on the same dataset split it the same way and try the same
    grid points; the split of the LSTM notebook passes no seed and is
    drawn from the process generator, so there are a library and two
    generator states for which two runs split the same data
    differently. *)
Theorem seeds_and_reproducibility :
  seed_of logreg ["ds"; "train_test_split"] "seed" = Some 0%Z
  ∧ (∀ A (L : random_lib) (e1 e2 : rng L) (ds : list A),
       logreg_split L e1 ds = logreg_split L e2 ds)
  ∧ (∀ (L : random_lib) (e1 e2 : rng L),
       logreg_candidates L e1 = logreg_candidates L e2)
  ∧ seed_of lstm ["train_test_split"] "random_state" = None
  ∧ (∀ A (L : random_lib) (e : rng L) (df : list A),
       lstm_split L e df = train_test_split L e df)
  ∧ ∃ (L : random_lib) (e1 e2 : rng L) (df : list nat),
      lstm_split L e1 df ≠ lstm_split L e2 df.
Proof.
  split_and!.
  - apply logreg_split_seed.
  - intros A L e1 e2 ds. by rewrite !logreg_split_seeded.
  - intros L e1 e2. by rewrite !logreg_candidates_seeded.
  - apply lstm_split_seed.
  - intros A L e df. apply lstm_split_ambient.
  - exists rotating, 0, 1, [10; 11; 12; 13; 14; 15].
    vm_compute. discriminate.
Qed.

End seeding_facts.

(* ===================================================================== *)
(** * More properties of the concurrency group *)
(* ===================================================================== *)

Section group_facts.
Import Workflow Group.

Lemma pending_cons r rs :
  pending (r :: rs) = (if has_status Pending r then 1 else 0) + pending rs.
Proof.
  unfold pending, has_status. rewrite filter_cons.
  case_decide; [rewrite bool_decide_eq_true_2|rewrite bool_decide_eq_false_2];
    done.
Qed.

Lemma pending_app rs1 rs2 : pending (rs1 ++ rs2) = pending rs1 + pending rs2.
Proof. unfold pending. by rewrite filter_app, length_app. Qed.

Lemma pending_cancel_pending rs :
  pending (set_status (has_status Pending) Cancelled rs) = 0.
Proof.
  induction rs as [|r rs IH]; [done|]. simpl. rewrite pending_cons, IH.
  destruct (has_status Pending r) eqn:Hr; [done|]. by rewrite Hr.
Qed.

Lemma pending_cancel_running rs :
  pending (set_status (has_status InProgress) Cancelled rs) = pending rs.
Proof.
  induction rs as [|r rs IH]; [done|]. simpl.
  rewrite !pending_cons, IH. f_equal. destruct r as [id []]; reflexivity.
Qed.

Lemma pending_finish id rs :
  pending (set_status (finishing id) Completed rs) = pending rs.
Proof.
  induction rs as [|r rs IH]; [done|]. simpl.
  rewrite !pending_cons, IH. f_equal. unfold finishing.
  destruct r as [id' []]; simpl; by destruct (Nat.eqb id' id).
Qed.

Lemma in_progress_some rs :
  existsb (has_status InProgress) rs = true → 1 ≤ in_progress rs.
Proof.
  induction rs as [|r rs IH]; [done|]. simpl. rewrite in_progress_cons.
  destruct (has_status InProgress r); [lia|]. simpl. intros H. apply IH in H. lia.
Qed.

(** Starting the pending run moves one run from waiting to running. *)
Lemma start_pending_counts rs :
  (pending rs = 0 →
     pending (start_pending rs) = 0
     ∧ in_progress (start_pending rs) = in_progress rs)
  ∧ (0 < pending rs →
       S (pending (start_pending rs)) = pending rs
       ∧ in_progress (start_pending rs) = S (in_progress rs)).
Proof.
  induction rs as [|r rs [IH0 IH1]]; [split; [done|intros H; cbv in H; lia]|].
  simpl. destruct (has_status Pending r) eqn:Hr.
  - rewrite !pending_cons, !in_progress_cons, Hr.
    assert (has_status InProgress r = false) as ->
      by (destruct r as [id []]; done).
    split; [lia|]. intros _. simpl. lia.
  - rewrite !pending_cons, !in_progress_cons, Hr. simpl.
    split; intros H.
    + destruct (IH0 H) as [-> ->]. done.
    + destruct (IH1 H) as [<- ->]. lia.
Qed.

Lemma sched_step_settled c rs e : settled rs → settled (sched_step c rs e).
Proof.
  intros (Hrun & Hpend & Hwait). destruct e as [id|id]; simpl.
  - unfold on_queued. destruct (existsb _ rs) eqn:Hex.
    + apply in_progress_some in Hex. destruct (cancel_in_progress c).
      * unfold settled.
        rewrite in_progress_app, pending_app, in_progress_cancel_running,
          pending_cancel_running.
        change (in_progress [new_run id InProgress]) with 1.
        change (pending [new_run id InProgress]) with 0. lia.
      * unfold settled.
        rewrite in_progress_app, pending_app, in_progress_cancel_pending,
          pending_cancel_pending.
        change (in_progress [new_run id Pending]) with 0.
        change (pending [new_run id Pending]) with 1. lia.
    + apply in_progress_none in Hex. unfold settled.
      rewrite in_progress_app, pending_app.
      change (in_progress [new_run id InProgress]) with 1.
      change (pending [new_run id InProgress]) with 0. lia.
  - unfold on_finished. destruct (existsb _ rs) eqn:Hex; [|done].
    pose proof (in_progress_finish id rs Hex Hrun) as Hdone.
    pose proof (pending_finish id rs) as Hkeep.
    destruct (start_pending_counts (set_status (finishing id) Completed rs))
      as [H0 H1].
    unfold settled. destruct (decide (pending rs = 0)) as [Hz|Hnz].
    + destruct H0 as [-> ->]; lia.
    + destruct H1 as [Hp ->]; lia.
Qed.

Lemma schedule_settled c evs : settled (schedule c evs).
Proof.
  induction evs as [|e evs IH] using rev_ind; [cbv; lia|].
  rewrite schedule_snoc. by apply sched_step_settled.
Qed.

(** X1: whatever runs are queued and end, and whether or not the group
    cancels runs in progress, at most one run of the group waits as
    pending, and a run only waits while another one is in progress: the
    group is never idle with a run waiting. *)
Theorem group_one_waiting (c : concurrency) (evs : list sched_event) :
  pending (schedule c evs) ≤ 1
  ∧ (0 < pending (schedule c evs) → in_progress (schedule c evs) = 1).
Proof. destruct (schedule_settled c evs) as (_ & H1 & H2). done. Qed.

(** Two pushes while the first deployment runs: one run waits. *)
Lemma group_one_waiting_witness :
  pending (schedule pages [Queued 1; Queued 2; Queued 3]) = 1
  ∧ in_progress (schedule pages [Queued 1; Queued 2; Queued 3]) = 1.
Proof.
  split; [reflexivity|].
  apply (proj2 (group_one_waiting pages [Queued 1; Queued 2; Queued 3])).
  vm_compute. lia.
Defined.

(** X3: when the run in progress ends while a run waits, the waiting
    run starts at once: afterwards no run waits and one is in
    progress. *)
Theorem group_hands_over (c : concurrency) (evs : list sched_event) (id : nat) :
  existsb (finishing id) (schedule c evs) = true →
  0 < pending (schedule c evs) →
  pending (schedule c (evs ++ [Finished id])) = 0
  ∧ in_progress (schedule c (evs ++ [Finished id])) = 1.
Proof.
  intros Hex Hwait. rewrite schedule_snoc. simpl. unfold on_finished.
  rewrite Hex. destruct (schedule_settled c evs) as (Hrun & Hpend & _).
  pose proof (in_progress_finish id _ Hex Hrun) as Hdone.
  pose proof (pending_finish id (schedule c evs)) as Hkeep.
  destruct (start_pending_counts
              (set_status (finishing id) Completed (schedule c evs)))
    as [_ H1].
  destruct H1 as [Hp ->]; lia.
Qed.

Lemma group_hands_over_witness :
  schedule pages [Queued 1; Queued 2; Finished 1]
  = [new_run 1 Completed; new_run 2 InProgress]
  ∧ pending (schedule pages ([Queued 1; Queued 2] ++ [Finished 1])) = 0.
Proof.
  split; [reflexivity|].
  apply (group_hands_over pages [Queued 1; Queued 2] 1); vm_compute;
    [reflexivity|lia].
Defined.

(** ** What becomes of one run *)

Lemma advances_refl s : advances s s.
Proof. destruct s; simpl; auto. Qed.

Lemma advances_trans s1 s2 s3 : advances s1 s2 → advances s2 s3 → advances s1 s3.
Proof. destruct s1, s2; simpl; intros H1 H2; intuition congruence. Qed.

Lemma advances_on_finish_advances s s' : advances_on_finish s s' → advances s s'.
Proof. by destruct s. Qed.

Lemma set_status_lookup p s rs i r :
  rs !! i = Some r →
  set_status p s rs !! i
  = Some (if p r then {| run_id := run_id r; run_status := s |} else r).
Proof. intros Hi. unfold set_status. by rewrite list_lookup_fmap, Hi. Qed.

Lemma start_pending_lookup rs i r :
  rs !! i = Some r →
  ∃ r', start_pending rs !! i = Some r' ∧ run_id r' = run_id r
        ∧ (r' = r ∨ (run_status r = Pending ∧ run_status r' = InProgress)).
Proof.
  revert i. induction rs as [|r0 rs IH]; intros i Hi; [done|]. simpl.
  destruct (has_status Pending r0) eqn:Hr0.
  - destruct i as [|i]; simpl in *.
    + simplify_eq. eexists. split; [done|]. split; [done|]. right.
      split; [|done]. unfold has_status in Hr0. by apply bool_decide_eq_true in Hr0.
    + eauto.
  - destruct i as [|i]; simpl in *; [simplify_eq; eauto|]. by apply IH.
Qed.

(** The end of a run changes no run for the worse: none is cancelled. *)
Lemma on_finished_lookup id rs i r :
  rs !! i = Some r →
  ∃ r', on_finished id rs !! i = Some r' ∧ run_id r' = run_id r
        ∧ advances_on_finish (run_status r) (run_status r').
Proof.
  intros Hi. unfold on_finished. destruct (existsb _ rs).
  - pose proof (set_status_lookup (finishing id) Completed rs i r Hi) as H1.
    destruct (start_pending_lookup _ _ _ H1) as (r' & Hr' & Hid & Hst).
    exists r'. split; [done|]. split; [by rewrite Hid; destruct (finishing id r)|].
    unfold finishing, has_status in Hst.
    destruct r as [rid st]. simpl in *.
    destruct Hst as [Heq|[Hpend Hrun]].
    + rewrite Heq. destruct st, (Nat.eqb rid id); simpl; auto.
    + rewrite Hrun. destruct st, (Nat.eqb rid id); simpl in *; auto; done.
  - exists r. split; [done|]. split; [done|].
    destruct (run_status r); simpl; auto.
Qed.

(** A queued run changes runs that wait, never a run in progress. *)
Lemma on_queued_lookup c id rs i r :
  cancel_in_progress c = false →
  rs !! i = Some r →
  ∃ r', on_queued c id rs !! i = Some r' ∧ run_id r' = run_id r
        ∧ advances (run_status r) (run_status r').
Proof.
  intros Hc Hi. unfold on_queued. rewrite Hc. destruct (existsb _ rs).
  - pose proof (set_status_lookup (has_status Pending) Cancelled rs i r Hi) as H1.
    eexists. split; [by apply lookup_app_l_Some|].
    unfold has_status. destruct r as [rid []]; simpl; auto.
  - exists r. split; [by apply lookup_app_l_Some|]. split; [done|].
    apply advances_refl.
Qed.

Lemma sched_step_lookup c rs e i r :
  cancel_in_progress c = false →
  rs !! i = Some r →
  ∃ r', sched_step c rs e !! i = Some r' ∧ run_id r' = run_id r
        ∧ advances (run_status r) (run_status r').
Proof.
  intros Hc Hi. destruct e as [id|id]; simpl.
  - by apply on_queued_lookup.
  - destruct (on_finished_lookup id rs i r Hi) as (r' & ? & ? & ?).
    exists r'. eauto using advances_on_finish_advances.
Qed.

Lemma steps_lookup c evs : ∀ rs i r,
  cancel_in_progress c = false →
  rs !! i = Some r →
  ∃ r', foldl (sched_step c) rs evs !! i = Some r' ∧ run_id r' = run_id r
        ∧ advances (run_status r) (run_status r').
Proof.
  induction evs as [|e evs IH]; intros rs i r Hc Hi; simpl.
  - exists r. eauto using advances_refl.
  - destruct (sched_step_lookup c rs e i r Hc Hi) as (r1 & H1 & Hid1 & Hadv1).
    destruct (IH _ _ _ Hc H1) as (r2 & H2 & Hid2 & Hadv2).
    exists r2. split; [done|]. split; [congruence|].
    by eapply advances_trans.
Qed.

(** X2: with [cancel-in-progress: false], a run that is in progress is
    never cancelled, whatever is queued or ends afterwards: it keeps its
    place and is in progress or completed from then on. *)
Theorem running_is_never_cancelled (evs evs' : list sched_event) (i : nat)
    (r : wf_run) :
  schedule pages evs !! i = Some r →
  run_status r = InProgress →
  ∃ r', schedule pages (evs ++ evs') !! i = Some r'
        ∧ run_id r' = run_id r
        ∧ (run_status r' = InProgress ∨ run_status r' = Completed).
Proof.
  intros Hi Hr. unfold schedule. rewrite foldl_app.
  destruct (steps_lookup pages evs' _ i r eq_refl Hi) as (r' & H' & Hid & Hadv).
  rewrite Hr in Hadv. eauto.
Qed.

(** The first deployment survives two more pushes and then ends. *)
Lemma running_is_never_cancelled_witness :
  ∃ r', schedule pages ([Queued 1] ++ [Queued 2; Queued 3; Finished 1]) !! 0
        = Some r'
        ∧ run_id r' = 1
        ∧ (run_status r' = InProgress ∨ run_status r' = Completed).
Proof.
  exact (running_is_never_cancelled [Queued 1] [Queued 2; Queued 3; Finished 1]
           0 (new_run 1 InProgress) eq_refl eq_refl).
Defined.

Lemma finishes_lookup c fins : ∀ rs i r,
  forallb is_finished fins = true →
  rs !! i = Some r → run_status r ≠ Cancelled →
  ∃ r', foldl (sched_step c) rs fins !! i = Some r' ∧ run_id r' = run_id r
        ∧ run_status r' ≠ Cancelled.
Proof.
  induction fins as [|e fins IH]; intros rs i r Hfin Hi Hr; simpl.
  - eauto.
  - simpl in Hfin. apply andb_true_iff in Hfin as [He Hfin].
    destruct e as [id|id]; [done|]. simpl.
    destruct (on_finished_lookup id rs i r Hi) as (r1 & H1 & Hid1 & Hadv1).
    destruct (IH _ _ _ Hfin H1) as (r2 & H2 & Hid2 & Hr2).
    + intros Hc. rewrite Hc in Hadv1.
      destruct (run_status r); simpl in Hadv1; intuition congruence.
    + exists r2. split; [done|]. split; [congruence|done].
Qed.

Lemma on_queued_last c id rs :
  cancel_in_progress c = false →
  ∃ r, on_queued c id rs !! length rs = Some r ∧ run_id r = id
       ∧ run_status r ≠ Cancelled.
Proof.
  intros Hc. unfold on_queued. rewrite Hc. destruct (existsb _ rs).
  - exists (new_run id Pending). split; [|done].
    rewrite lookup_app_r by (unfold set_status; rewrite length_map; lia).
    unfold set_status. rewrite length_map, Nat.sub_diag. done.
  - exists (new_run id InProgress). split; [|done].
    by rewrite lookup_app_r, Nat.sub_diag by lia.
Qed.

(** X4: the run of the latest push is not cancelled by runs ending:
    after any history, a run that is queued and followed only by ends
    of runs keeps its place and is pending, in progress or completed. *)
Theorem latest_run_is_kept (evs fins : list sched_event) (id : nat) :
  forallb is_finished fins = true →
  ∃ r, schedule pages (evs ++ Queued id :: fins)
         !! length (schedule pages evs) = Some r
       ∧ run_id r = id
       ∧ run_status r ≠ Cancelled.
Proof.
  intros Hfin. unfold schedule. rewrite foldl_app. simpl.
  destruct (on_queued_last pages id (foldl (sched_step pages) [] evs) eq_refl)
    as (r & Hr & Hid & Hst).
  destruct (finishes_lookup pages fins _ _ r Hfin Hr Hst) as (r' & ? & ? & ?).
  exists r'. split; [done|]. split; [congruence|done].
Qed.

(** The third push waits through the end of the first run and the
    start and end of nothing else. *)
Lemma latest_run_is_kept_witness :
  ∃ r, schedule pages ([Queued 1; Queued 2] ++ Queued 3 :: [Finished 1])
         !! length (schedule pages [Queued 1; Queued 2]) = Some r
       ∧ run_id r = 3
       ∧ run_status r ≠ Cancelled.
Proof.
  exact (latest_run_is_kept [Queued 1; Queued 2] [Finished 1] 3 eq_refl).
Defined.

End group_facts.

(* ===================================================================== *)
(** * Properties of the tokenizer and of what it feeds *)
(* ===================================================================== *)

Section tokenizer_facts.
Import Tokenizer.
Variable words_of : string → list string.

Abbreviation word_counts := (Tokenizer.word_counts words_of).
Abbreviation sorted_voc := (Tokenizer.sorted_voc words_of).
Abbreviation fit_on_texts := (Tokenizer.fit_on_texts words_of).
Abbreviation word_index := (Tokenizer.word_index words_of).
Abbreviation texts_to_sequences := (Tokenizer.texts_to_sequences words_of).
Abbreviation x_padded := (Tokenizer.x_padded words_of).

(** ** The vocabulary *)

Lemma count_word_keys w counts :
  (count_word w counts).*1
  = if decide (w ∈ counts.*1) then counts.*1 else counts.*1 ++ [w].
Proof.
  induction counts as [|[w' n] rest IH]; [done|]. cbn [count_word].
  destruct (String.eqb_spec w' w) as [->|Hne]; rewrite !fmap_cons; cbn [fst].
  - rewrite decide_True by left. done.
  - rewrite IH. destruct (decide (w ∈ rest.*1)) as [Hin|Hnin].
    + rewrite decide_True by (by right). done.
    + rewrite decide_False; [done|].
      intros [Heq|Hin]%elem_of_cons; [congruence|done].
Qed.

Lemma count_words_keys words : ∀ counts,
  NoDup counts.*1 →
  NoDup (foldl (λ counts w, count_word w counts) counts words).*1
  ∧ ∀ w, w ∈ (foldl (λ counts w, count_word w counts) counts words).*1
         ↔ w ∈ counts.*1 ∨ w ∈ words.
Proof.
  induction words as [|w0 words IH]; intros counts Hnd; simpl.
  - split; [done|]. intros w. rewrite elem_of_nil. tauto.
  - destruct (IH (count_word w0 counts)) as [Hnd' Hin'].
    { rewrite count_word_keys. case_decide; [done|].
      apply NoDup_app. split_and!; [done| |apply NoDup_singleton].
      intros x Hx ->%list_elem_of_singleton. done. }
    split; [done|]. intros w. rewrite Hin', count_word_keys, elem_of_cons.
    case_decide as Hw0.
    + split; [tauto|]. intros [?|[->|?]]; auto.
    + rewrite elem_of_app, list_elem_of_singleton. tauto.
Qed.

Lemma insert_desc_perm x sorted : insert_desc x sorted ≡ₚ x :: sorted.
Proof.
  induction sorted as [|y rest IH]; [done|]. simpl.
  destruct (x.2 <=? y.2); [|done]. rewrite IH. apply Permutation_swap.
Qed.

Lemma sort_desc_perm wcounts : sort_desc wcounts ≡ₚ wcounts.
Proof.
  unfold sort_desc.
  assert (∀ acc, foldl (λ sorted x, insert_desc x sorted) acc wcounts
                 ≡ₚ acc ++ wcounts) as H; [|apply H].
  induction wcounts as [|x l IH]; intros acc; simpl.
  - by rewrite app_nil_r.
  - rewrite IH, insert_desc_perm. apply Permutation_middle.
Qed.

Lemma sorted_voc_words texts :
  NoDup (sorted_voc texts)
  ∧ ∀ w, w ∈ sorted_voc texts ↔ ∃ text, text ∈ texts ∧ w ∈ words_of text.
Proof.
  destruct (count_words_keys (flat_map words_of texts) []) as [Hnd Hin];
    [constructor|].
  assert (sorted_voc texts ≡ₚ (word_counts texts).*1) as Hperm
    by (unfold Tokenizer.sorted_voc; by rewrite sort_desc_perm).
  split.
  - by rewrite Hperm.
  - intros w. rewrite Hperm. unfold Tokenizer.word_counts. rewrite Hin.
    simpl. rewrite elem_of_nil, !list_elem_of_In, in_flat_map.
    setoid_rewrite list_elem_of_In. tauto.
Qed.

Lemma fit_on_texts_keys texts : (fit_on_texts texts).*1 = sorted_voc texts.
Proof.
  unfold Tokenizer.fit_on_texts. apply fst_zip.
  rewrite length_fmap, length_seq. done.
Qed.

Lemma fit_on_texts_indices texts :
  (fit_on_texts texts).*2 = Z.of_nat <$> seq 1 (length (sorted_voc texts)).
Proof.
  unfold Tokenizer.fit_on_texts. apply snd_zip.
  rewrite length_fmap, length_seq. done.
Qed.

Lemma length_fit_on_texts texts :
  length (fit_on_texts texts) = length (sorted_voc texts).
Proof. by rewrite <- fit_on_texts_keys, length_fmap. Qed.

Lemma fit_on_texts_range texts w i :
  (w, i) ∈ fit_on_texts texts →
  (1 ≤ i ≤ Z.of_nat (length (fit_on_texts texts)))%Z.
Proof.
  intros Hin. assert (i ∈ (fit_on_texts texts).*2) as Hi
    by (apply list_elem_of_fmap; by exists (w, i)).
  rewrite fit_on_texts_indices in Hi.
  apply list_elem_of_fmap in Hi as (k & -> & Hk).
  apply elem_of_seq in Hk. rewrite length_fit_on_texts. lia.
Qed.

Lemma word_index_numbered (texts : list string) :
  Embedding.numbered (word_index texts).
Proof.
  unfold Tokenizer.word_index. split.
  - rewrite fit_on_texts_indices. apply NoDup_fmap_2; [apply _|apply NoDup_seq].
  - apply fit_on_texts_range.
Qed.

Lemma word_index_words (texts : list string) w :
  w ∈ (word_index texts).*1 ↔ ∃ text, text ∈ texts ∧ w ∈ words_of text.
Proof.
  unfold Tokenizer.word_index. destruct (sorted_voc_words texts) as [_ Hin].
  by rewrite fit_on_texts_keys.
Qed.

(** X5: the word index the tokenizer builds from any texts numbers its
    words 1, 2, ..., each index once (what the embedding loop relies
    on), holds every word once, and holds exactly the words of the
    texts. *)
Theorem word_index_is_numbered (texts : list string) :
  Embedding.numbered (word_index texts)
  ∧ NoDup (word_index texts).*1
  ∧ ∀ w, w ∈ (word_index texts).*1
         ↔ ∃ text, text ∈ texts ∧ w ∈ words_of text.
Proof.
  split; [apply word_index_numbered|]. split; [|apply word_index_words].
  unfold Tokenizer.word_index. destruct (sorted_voc_words texts) as [Hnd _].
  by rewrite fit_on_texts_keys.
Qed.

(** ** From texts to rows *)

Lemma index_of_Some wi w i : index_of wi w = Some i → (w, i) ∈ wi.
Proof.
  unfold index_of. destruct (find _ wi) as [[w' i']|] eqn:Hfind; [|done].
  simpl. intros [= <-]. apply find_some in Hfind as [Hin Heq].
  apply String.eqb_eq in Heq. simpl in Heq. subst. by apply list_elem_of_In.
Qed.

Lemma index_of_known wi w : w ∈ wi.*1 → is_Some (index_of wi w).
Proof.
  unfold index_of. induction wi as [|[w' i] wi IH]; simpl.
  - intros H. by apply elem_of_nil in H.
  - destruct (String.eqb_spec w' w) as [->|Hne]; simpl; [eauto|].
    intros [Heq|Hin]%elem_of_cons; [congruence|auto].
Qed.

Lemma index_of_unknown wi w : w ∉ wi.*1 → index_of wi w = None.
Proof.
  intros Hw. destruct (index_of wi w) as [i|] eqn:Hi; [|done].
  apply index_of_Some in Hi. destruct Hw.
  apply list_elem_of_fmap. by exists (w, i).
Qed.

Lemma omap_total {A B} (f : A → option B) l :
  Forall (λ x, is_Some (f x)) l →
  length (omap f l) = length l ∧ ∀ k x, l !! k = Some x → omap f l !! k = f x.
Proof.
  induction 1 as [|x l [y Hy] Hl [IHlen IHk]]; [done|].
  change (omap f (x :: l))
    with (match f x with Some y => y :: omap f l | None => omap f l end).
  rewrite Hy. split; [by rewrite !length_cons, IHlen|].
  intros [|k] x' Hk; [by injection Hk as <-|]. by apply IHk.
Qed.

Lemma fitted_text_words (df_text : list string) (text : string) :
  text ∈ df_text →
  Forall (λ w, is_Some (index_of (word_index df_text) w)) (words_of text).
Proof.
  intros Htext. apply Forall_forall. intros w Hw.
  apply index_of_known, word_index_words. eauto.
Qed.

(** X6: the tokenizer is fitted on every text of the frame, so a text
    of the frame (as those of [x_train] and [x_test] are) loses no
    word: its sequence has one token per word, in order, and the token
    is the index of the word. *)
Theorem fitted_text_keeps_every_word (df_text : list string) (text : string) :
  text ∈ df_text →
  ∃ tokens, texts_to_sequences (word_index df_text) [text] = [tokens]
    ∧ length tokens = length (words_of text)
    ∧ ∀ k w, words_of text !! k = Some w →
        ∃ i, tokens !! k = Some i ∧ (w, i) ∈ word_index df_text.
Proof.
  intros Htext. eexists. split; [reflexivity|].
  pose proof (fitted_text_words df_text text Htext) as Hknown.
  destruct (omap_total (index_of (word_index df_text)) (words_of text) Hknown)
    as [Hlen Hk].
  split; [done|]. intros k w Hw. rewrite (Hk k w Hw).
  destruct (index_of (word_index df_text) w) as [i|] eqn:Hi.
  - exists i. split; [done|]. by apply index_of_Some.
  - exfalso. assert (is_Some (index_of (word_index df_text) w)) as [? ?];
      [|congruence].
    apply index_of_known, word_index_words. exists text. split; [done|].
    by eapply list_elem_of_lookup_2.
Qed.

Lemma sequence_tokens wi text :
  Forall (λ i, ∃ w, (w, i) ∈ wi) (omap (index_of wi) (words_of text)).
Proof.
  apply Forall_forall. intros i Hi. apply list_elem_of_omap in Hi as (w & _ & Hw).
  exists w. by apply index_of_Some.
Qed.

Lemma last_tokens_shape n s :
  ∃ k tokens, Padding.last_tokens n s = replicate k 0%Z ++ tokens
              ∧ tokens `suffix_of` s.
Proof.
  unfold Padding.last_tokens. case_decide.
  - exists 0, (drop (length s - n) s). split; [done|]. apply suffix_drop.
  - by exists (n - length s), s.
Qed.

(** X7: whatever texts the tokenizer was fitted on and whatever texts
    are turned into rows, the padding succeeds, gives one row of length
    96 per text, every entry of a row is the number of a row of the
    embedding matrix (at least 0, below [input_dim], the size of the
    word index plus one), and a row is zeros followed by tokens that are
    not zero, so that masking zeros masks the padding and nothing
    else. *)
Theorem padded_rows_index_the_matrix (df_text x : list string) :
  ∃ rows, x_padded df_text x = Some rows
    ∧ length rows = length x
    ∧ Forall (λ row, length row = 96
                     ∧ indexes (length (word_index df_text) + 1) row
                     ∧ zero_padded row) rows.
Proof.
  unfold Tokenizer.x_padded, Tokenizer.texts_to_sequences.
  rewrite padded_last_tokens.
  eexists. split; [done|]. split; [by rewrite !length_fmap|].
  apply Forall_fmap, Forall_fmap, Forall_forall. intros text _. simpl.
  split; [apply length_last_tokens|].
  destruct (last_tokens_shape Padding.maxlen
              (omap (index_of (word_index df_text)) (words_of text)))
    as (k & tokens & -> & Hsuffix).
  assert (Forall (λ i, (1 ≤ i ≤ Z.of_nat (length (word_index df_text)))%Z)
            tokens) as Htokens.
  { destruct Hsuffix as [cut Hcut].
    pose proof (sequence_tokens (word_index df_text) text) as Hseq.
    rewrite Hcut in Hseq. apply Forall_app in Hseq as [_ Hseq].
    eapply Forall_impl; [done|]. intros i [w Hw]. simpl in Hw.
    destruct (word_index_numbered df_text) as [_ Hrange].
    by apply (Hrange w). }
  split.
  - apply Forall_app. split.
    + apply Forall_replicate. lia.
    + eapply Forall_impl; [done|]. simpl. lia.
  - exists k, tokens. split; [done|].
    eapply Forall_impl; [done|]. simpl. lia.
Qed.

(** The rows have the element type [int32]; with fewer than 2^31 words
    in the word index every token is within its range, and the call
    with that element type gives the same rows. *)
Lemma x_padded_int32 (df_text x : list string) :
  (Z.of_nat (length (word_index df_text)) < 2 ^ 31)%Z →
  ∃ rows,
    Padding.padded_int32 (texts_to_sequences (word_index df_text) x) = inr rows
    ∧ x_padded df_text x = Some rows.
Proof.
  intros Hsize. apply padded_int32_padded.
  unfold Tokenizer.texts_to_sequences. apply Forall_fmap, Forall_forall.
  intros text _. simpl. apply Forall_drop.
  eapply Forall_impl; [apply sequence_tokens|]. intros i [w Hw]. simpl in Hw.
  destruct (word_index_numbered df_text) as [_ Hrange].
  specialize (Hrange w i Hw). simpl. lia.
Qed.

(** X8: a text none of whose words the tokenizer knows (a text without
    words among them) loses them all and becomes a row of 96 zeros. *)
Theorem unknown_text_is_all_padding (df_text : list string) (text : string) :
  (∀ w, w ∈ words_of text → w ∉ (word_index df_text).*1) →
  x_padded df_text [text] = Some [replicate 96 0%Z].
Proof.
  intros Hunknown. unfold Tokenizer.x_padded. rewrite padded_last_tokens.
  simpl. do 2 f_equal.
  assert (omap (index_of (word_index df_text)) (words_of text) = []) as ->.
  { induction (words_of text) as [|w ws IH]; [done|].
    change (omap ?f (w :: ws))
      with (match f w with Some y => y :: omap f ws | None => omap f ws end).
    rewrite index_of_unknown by (apply Hunknown; left).
    apply IH. intros w' Hw'. apply Hunknown. by right. }
  reflexivity.
Qed.

End tokenizer_facts.

(** A text of the frame, and a text the tokenizer has not seen. *)
Lemma fitted_text_keeps_every_word_witness :
  ∃ tokens,
    Tokenizer.texts_to_sequences Tokenizer.blank_words
      (Tokenizer.word_index Tokenizer.blank_words ["a b b c"; "c d c"])
      ["c d c"] = [tokens]
    ∧ tokens = [1; 4; 1]%Z.
Proof.
  destruct (fitted_text_keeps_every_word Tokenizer.blank_words
              ["a b b c"; "c d c"] "c d c") as (tokens & Hrun & _).
  - right. left.
  - exists tokens. split; [done|]. vm_compute in Hrun. congruence.
Defined.

Lemma unknown_text_is_all_padding_witness :
  Tokenizer.x_padded Tokenizer.blank_words ["a b b c"; "c d c"] ["x y"]
  = Some [replicate 96 0%Z].
Proof.
  apply unknown_text_is_all_padding. intros w Hw.
  vm_compute in Hw.
  repeat (apply elem_of_cons in Hw as [->|Hw];
          [apply (bool_decide_unpack _); vm_compute; exact I|]).
  by apply elem_of_nil in Hw.
Defined.

(* ===================================================================== *)
(** * More properties of the embedding matrix *)
(* ===================================================================== *)

Section embedding_layer_facts.
Import Embedding.
Context {F : Type} (zero : F).

Lemma index_of_item (items : list (string * Z)) j :
  Z.of_nat j ∈ items.*2 → ∃ word, (word, Z.of_nat j) ∈ items.
Proof.
  intros ([word index] & Heq & Hin)%list_elem_of_fmap. simpl in Heq.
  exists word. by rewrite Heq.
Qed.

(** The loop keeps the width of the rows. *)
Lemma embed_words_sized (wv : keyed_vectors F) items matrix :
  vectors_sized wv →
  Forall (λ row : list F, length row = vector_size wv) matrix →
  NoDup items.*2 →
  (∀ word index, (word, index) ∈ items →
     (1 ≤ index < Z.of_nat (length matrix))%Z) →
  ∃ m, embed_words zero wv items matrix = Ok m
       ∧ length m = length matrix
       ∧ Forall (λ row : list F, length row = vector_size wv) m.
Proof.
  intros Hwv Hm Hnd Hrange.
  destruct (embed_words_rows zero wv items matrix Hwv Hm Hnd Hrange)
    as (m & Hrun & Hlen & Hrows & Hother).
  exists m. split; [done|]. split; [done|].
  apply Forall_lookup. intros j row Hj.
  destruct (decide (Z.of_nat j ∈ items.*2)) as [Hin|Hnin].
  - apply index_of_item in Hin as [word Hword].
    specialize (Hrows word _ Hword). rewrite Nat2Z.id, Hj in Hrows.
    injection Hrows as ->. by apply length_expected_row.
  - rewrite (Hother j Hnin) in Hj. by eapply Forall_lookup_1 in Hm.
Qed.

Lemma same_index_same_word (items : list (string * Z)) w1 w2 i :
  NoDup items.*2 → (w1, i) ∈ items → (w2, i) ∈ items → w1 = w2.
Proof.
  induction items as [|[w i'] items IH]; intros Hnd H1 H2.
  - by apply elem_of_nil in H1.
  - rewrite fmap_cons in Hnd. apply NoDup_cons in Hnd as [Hi Hnd]. simpl in Hi.
    apply elem_of_cons in H1 as [H1|H1]; apply elem_of_cons in H2 as [H2|H2].
    + congruence.
    + destruct Hi. injection H1 as _ <-. apply list_elem_of_fmap. by exists (w2, i).
    + destruct Hi. injection H2 as _ <-. apply list_elem_of_fmap. by exists (w1, i).
    + by apply IH.
Qed.

(** X10: the [else] branch of the loop changes nothing: skipping the
    words that have no vector gives the same matrix, since their rows
    are zero from the start. *)
Theorem zero_branch_is_redundant (word_index : list (string * Z))
    (wv : keyed_vectors F) :
  vectors_sized wv → numbered word_index →
  embed_words zero wv
    (filter (λ item, is_Some (vectors wv !! item.1)) word_index)
    (zeros2 zero (length word_index + 1, vector_size wv))
  = embedding_matrix zero word_index wv.
Proof.
  intros Hwv [Hnd Hrange]. unfold embedding_matrix. cbn zeta.
  set (start := zeros2 zero (length word_index + 1, vector_size wv)).
  assert (length start = length word_index + 1) as Hlen0
    by (unfold start, zeros2; simpl; apply length_replicate).
  assert (Forall (λ row : list F, length row = vector_size wv) start) as Hsized.
  { unfold start, zeros2. simpl. apply Forall_replicate, length_replicate. }
  assert (∀ j row, start !! j = Some row → row = zeros zero (vector_size wv))
    as Hzero.
  { intros j row Hj. unfold start, zeros2 in Hj. simpl in Hj.
    by apply lookup_replicate in Hj as [-> _]. }
  set (kept := filter (λ item, is_Some (vectors wv !! item.1)) word_index).
  assert (∀ item, item ∈ kept ↔ is_Some (vectors wv !! item.1) ∧ item ∈ word_index)
    as Hkept by (intros item; unfold kept; by rewrite list_elem_of_filter).
  assert (NoDup kept.*2) as Hnd_kept.
  { eapply sublist_NoDup; [exact Hnd|]. apply fmap_sublist, sublist_filter. }
  destruct (embed_words_rows zero wv word_index start)
    as (m1 & Hrun1 & Hlen1 & Hrows1 & Hother1); [done..| |].
  { intros word index Hin. specialize (Hrange word index Hin). lia. }
  destruct (embed_words_rows zero wv kept start)
    as (m2 & Hrun2 & Hlen2 & Hrows2 & Hother2); [done..| |].
  { intros word index [_ Hin]%Hkept. specialize (Hrange word index Hin). lia. }
  rewrite Hrun1, Hrun2. f_equal. apply list_eq. intros j.
  destruct (decide (Z.of_nat j ∈ word_index.*2)) as [Hin|Hnin].
  - apply index_of_item in Hin as [word Hword].
    pose proof (Hrows1 word _ Hword) as H1. rewrite Nat2Z.id in H1. rewrite H1.
    destruct (vectors wv !! word) as [vec|] eqn:Hvec.
    + assert ((word, Z.of_nat j) ∈ kept) as Hk
        by (apply Hkept; simpl; rewrite Hvec; eauto).
      pose proof (Hrows2 word _ Hk) as H2. by rewrite Nat2Z.id in H2.
    + rewrite Hother2.
      * unfold expected_row. rewrite Hvec. simpl.
        destruct (lookup_lt_is_Some_2 start j) as [row Hrow].
        { specialize (Hrange word _ Hword). lia. }
        rewrite Hrow. f_equal. by eapply Hzero.
      * intros ([w' i'] & Heq & [Hsome Hin']%Hkept)%list_elem_of_fmap.
        simpl in *. subst i'.
        assert (w' = word) as ->
          by exact (same_index_same_word _ _ _ _ Hnd Hin' Hword).
        rewrite Hvec in Hsome. by destruct Hsome.
  - rewrite Hother1 by done. rewrite Hother2; [done|].
    intros ([w' i'] & Heq & [_ Hin']%Hkept)%list_elem_of_fmap.
    simpl in Heq. subst i'. apply Hnin. apply list_elem_of_fmap.
    by exists (w', Z.of_nat j).
Qed.

Section with_tokenizer.
Variable words_of : string → list string.

(** X9: for any texts and any vectors of one size, cell 11 ends without
    an error and its matrix has exactly the shape the embedding layer
    is told: [input_dim] rows of [output_dim] entries. *)
Theorem embedding_matrix_fits_layer (df_text : list string)
    (wv : keyed_vectors F) :
  vectors_sized wv →
  ∃ m, Tokenizer.embedding_matrix words_of zero df_text wv = Ok m
       ∧ length m = (Tokenizer.embedding_matrix_shape words_of df_text wv).1
       ∧ Forall
           (λ row, length row
                   = (Tokenizer.embedding_matrix_shape words_of df_text wv).2)
           m.
Proof.
  intros Hwv. unfold Tokenizer.embedding_matrix, embedding_matrix.
  unfold Tokenizer.embedding_matrix_shape. cbn zeta. simpl.
  destruct (word_index_numbered words_of df_text) as [Hnd Hrange].
  set (wi := Tokenizer.word_index words_of df_text) in *.
  destruct (embed_words_sized wv wi (zeros2 zero (length wi + 1, vector_size wv)))
    as (m & Hrun & Hlen & Hsized); [done| |done| |].
  { unfold zeros2. simpl. apply Forall_replicate, length_replicate. }
  { intros word index Hin. unfold zeros2. simpl. rewrite length_replicate.
    specialize (Hrange word index Hin). lia. }
  exists m. split; [done|]. split; [|done].
  rewrite Hlen. unfold zeros2. simpl. apply length_replicate.
Qed.
End with_tokenizer.

End embedding_layer_facts.

(** Two texts, four words, vectors of size two for one of the words. *)
Lemma embedding_matrix_fits_layer_witness :
  ∃ m, Tokenizer.embedding_matrix Tokenizer.blank_words 0%Z
         ["a b b c"; "c d c"]
         {| Embedding.vector_size := 2;
            Embedding.vectors := {[ "b" := [5; 6]%Z ]} |} = Embedding.Ok m
       ∧ m = [[0; 0]; [0; 0]; [5; 6]; [0; 0]; [0; 0]]%Z.
Proof.
  destruct (embedding_matrix_fits_layer 0%Z Tokenizer.blank_words
              ["a b b c"; "c d c"]
              {| Embedding.vector_size := 2;
                 Embedding.vectors := {[ "b" := [5; 6]%Z ]} |})
    as (m & Hrun & _).
  - intros word vec Hw. simpl in Hw.
    apply lookup_singleton_Some in Hw as [_ <-]. reflexivity.
  - exists m. split; [done|]. vm_compute in Hrun. congruence.
Defined.

Lemma zero_branch_is_redundant_witness :
  Embedding.embed_words 0%Z Tokenizer.the_vectors
    (filter
       (λ item, is_Some (Embedding.vectors Tokenizer.the_vectors !! item.1))
       Tokenizer.the_cat)
    (Embedding.zeros2 0%Z
       (length Tokenizer.the_cat + 1,
        Embedding.vector_size Tokenizer.the_vectors))
  = Embedding.embedding_matrix 0%Z Tokenizer.the_cat Tokenizer.the_vectors.
Proof.
  apply (zero_branch_is_redundant 0%Z Tokenizer.the_cat Tokenizer.the_vectors).
  - intros word vec Hw. simpl in Hw.
    apply lookup_singleton_Some in Hw as [_ <-]. reflexivity.
  - split.
    + apply (bool_decide_unpack _). vm_compute. exact I.
    + intros word index Hin. simpl.
      repeat (apply elem_of_cons in Hin as [Hin|Hin]; [simplify_eq; lia|]).
      by apply elem_of_nil in Hin.
Defined.

(* ===================================================================== *)
(** * Properties of the label encoding *)
(* ===================================================================== *)

Section label_facts.
Import Embedding Labels.

Lemma insert_sorted_perm x sorted : insert_sorted x sorted ≡ₚ x :: sorted.
Proof.
  induction sorted as [|y rest IH]; [done|]. simpl.
  destruct (String.leb x y); [done|]. rewrite IH. apply Permutation_swap.
Qed.

Lemma unique_perm labels : unique labels ≡ₚ remove_dups labels.
Proof.
  unfold unique. induction (remove_dups labels) as [|x l IH]; [done|].
  simpl. by rewrite insert_sorted_perm, IH.
Qed.

Lemma elem_of_unique labels y : y ∈ unique labels ↔ y ∈ labels.
Proof. by rewrite unique_perm, elem_of_remove_dups. Qed.

Lemma length_unique labels : length (unique labels) = length (remove_dups labels).
Proof. by rewrite unique_perm. Qed.

Lemma length_one_hot classes label : length (one_hot classes label) = length classes.
Proof. apply length_fmap. Qed.

(** ** Decoding a row *)

Lemma argmax_from_one b place classes label :
  argmax_from b 1 place (one_hot classes label) = b.
Proof.
  revert place. induction classes as [|c cs IH]; intros place; [done|].
  simpl. destruct (String.eqb c label); simpl; apply IH.
Qed.

Lemma argmax_from_unseen b place classes label :
  label ∉ classes → argmax_from b 0 place (one_hot classes label) = b.
Proof.
  revert place. induction classes as [|c cs IH]; intros place Hnin; [done|].
  apply not_elem_of_cons in Hnin as [Hne Hnin]. simpl.
  destruct (String.eqb_spec c label) as [->|_]; [done|]. simpl. by apply IH.
Qed.

Lemma argmax_from_seen b place classes label :
  label ∈ classes →
  ∃ p, classes !! p = Some label
       ∧ argmax_from b 0 place (one_hot classes label) = place + p.
Proof.
  revert place. induction classes as [|c cs IH]; intros place Hin.
  - by apply elem_of_nil in Hin.
  - simpl. destruct (String.eqb_spec c label) as [->|Hne]; simpl.
    + exists 0. split; [done|]. rewrite argmax_from_one. lia.
    + apply elem_of_cons in Hin as [?|Hin]; [congruence|].
      destruct (IH (S place) Hin) as (p & Hp & ->).
      exists (S p). split; [done|]. lia.
Qed.

Lemma argmax_one_hot_seen classes label :
  label ∈ classes →
  ∃ j, argmax (one_hot classes label) = Ok j ∧ classes !! j = Some label.
Proof.
  destruct classes as [|c cs]; intros Hin; [by apply elem_of_nil in Hin|].
  simpl. destruct (String.eqb_spec c label) as [->|Hne].
  - exists 0. by rewrite argmax_from_one.
  - apply elem_of_cons in Hin as [?|Hin]; [congruence|].
    destruct (argmax_from_seen 0 1 cs label Hin) as (p & Hp & ->).
    by exists (S p).
Qed.

Lemma argmax_one_hot_unseen classes label :
  classes ≠ [] → label ∉ classes →
  argmax (one_hot classes label) = Ok 0
  ∧ one_hot classes label = replicate (length classes) 0%Z.
Proof.
  intros Hne Hnin. split.
  - destruct classes as [|c cs]; [done|].
    apply not_elem_of_cons in Hnin as [Hc Hnin]. simpl.
    destruct (String.eqb_spec c label) as [->|_]; [done|].
    by rewrite argmax_from_unseen.
  - clear Hne. induction classes as [|c cs IH]; [done|].
    apply not_elem_of_cons in Hnin as [Hc Hnin]. simpl.
    destruct (String.eqb_spec c label) as [->|_]; [done|].
    f_equal. by apply IH.
Qed.

(** ** The encoder with three classes or more *)

Lemma transform_multiclass classes y :
  3 ≤ length classes → y ≠ [] →
  transform classes y = Ok (one_hot classes <$> y).
Proof.
  intros Hlen Hy. unfold transform. destruct y as [|y0 y]; [done|].
  destruct (type_of_target (y0 :: y)); [|done].
  destruct (length classes) as [|[|[|n]]]; [lia..|done].
Qed.

Lemma argmax_rows_one_hot classes y :
  classes ≠ [] →
  ∃ labels, argmax_rows (one_hot classes <$> y) = Ok labels
    ∧ length labels = length y
    ∧ ∀ k label, y !! k = Some label →
        ∃ j, labels !! k = Some j ∧ argmax (one_hot classes label) = Ok j.
Proof.
  intros Hne. induction y as [|label y (labels & Hrun & Hlen & Hk)].
  - exists []. split; [done|]. split; [done|]. intros k label Hk. done.
  - rewrite fmap_cons. cbn [argmax_rows].
    assert (∃ j, argmax (one_hot classes label) = Ok j) as [j Hj].
    { destruct classes as [|c cs]; [done|]. simpl. eauto. }
    rewrite Hj, Hrun. simpl. exists (j :: labels).
    split; [done|]. split; [by rewrite !length_cons, Hlen|].
    intros [|k] label' Hk'; simpl in *.
    + simplify_eq. eauto.
    + by apply Hk.
Qed.

(** ** The cells *)

Lemma unique_nonempty y : y ≠ [] → unique y ≠ [].
Proof.
  destruct y as [|y0 y]; [done|]. intros _ Hnil.
  assert (y0 ∈ unique (y0 :: y)) as Hin by (apply elem_of_unique; left).
  rewrite Hnil in Hin. by apply elem_of_nil in Hin.
Qed.

Lemma transform_succeeds classes y :
  classes ≠ [] → y ≠ [] → ∃ rows, transform classes y = Ok rows.
Proof.
  intros Hc Hy. unfold transform. destruct y as [|y0 y]; [done|].
  destruct classes as [|c1 [|c2 [|c3 cs]]]; [done|..];
    destruct (type_of_target (y0 :: y)); simpl; eauto.
Qed.

Lemma encode_Ok df_sentiment y_train y_test e :
  encode df_sentiment y_train y_test = Ok e →
  df_sentiment ≠ [] ∧ y_train ≠ [] ∧ y_test ≠ []
  ∧ classes_ e = unique y_train
  ∧ transform (unique y_train) y_train = Ok (y_train_encoded e)
  ∧ transform (unique y_train) y_test = Ok (y_test_encoded e).
Proof.
  unfold encode, fit. destruct df_sentiment as [|d df]; [done|].
  destruct y_train as [|t tr]; [done|]. cbn [bind].
  destruct (transform (unique (t :: tr)) (t :: tr)) as [train|] eqn:Htrain;
    [|done].
  destruct y_test as [|s te]; [done|]. cbn [bind].
  destruct (transform (unique (t :: tr)) (s :: te)) as [test|] eqn:Htest;
    [|done].
  cbn [bind]. intros [= <-]. done.
Qed.

(** X14: the encoding cell needs samples and nothing else: with an
    empty frame, training set or test set it stops with a
    [ValueError]; otherwise it succeeds, and the classes are those of
    the training labels, whatever the labels of the frame were. *)
Theorem encode_needs_samples (df_sentiment y_train y_test : list string) :
  (df_sentiment = [] ∨ y_train = [] ∨ y_test = [] →
     encode df_sentiment y_train y_test = Err ValueError)
  ∧ (df_sentiment ≠ [] → y_train ≠ [] → y_test ≠ [] →
       ∃ e, encode df_sentiment y_train y_test = Ok e
            ∧ classes_ e = unique y_train).
Proof.
  split.
  - unfold encode, fit. intros [-> | [-> | ->]]; [done|by destruct df_sentiment|].
    destruct df_sentiment; [done|]. destruct y_train as [|t tr]; [done|].
    cbn [bind].
    destruct (transform_succeeds (unique (t :: tr)) (t :: tr)) as [train ->];
      [by apply unique_nonempty|done|]. reflexivity.
  - intros Hdf Htr Hte. unfold encode, fit.
    destruct df_sentiment; [done|]. destruct y_train as [|t tr]; [done|].
    cbn [bind].
    destruct (transform_succeeds (unique (t :: tr)) (t :: tr)) as [train ->];
      [by apply unique_nonempty|done|].
    destruct (transform_succeeds (unique (t :: tr)) y_test) as [test ->];
      [by apply unique_nonempty|done|].
    cbn [bind]. eauto.
Qed.

Lemma decode_test_labels df_sentiment y_train y_test e :
  encode df_sentiment y_train y_test = Ok e →
  3 ≤ num_classes e →
  y_test_encoded e = one_hot (classes_ e) <$> y_test
  ∧ ∃ labels, y_true_labels e = Ok labels
      ∧ length labels = length y_test
      ∧ ∀ k label, y_test !! k = Some label →
          ∃ j, labels !! k = Some j
               ∧ argmax (one_hot (classes_ e) label) = Ok j.
Proof.
  intros (_ & _ & Hte & Hclasses & _ & Htest)%encode_Ok Hthree.
  unfold num_classes in Hthree. rewrite <- Hclasses in Htest.
  rewrite transform_multiclass in Htest by done. injection Htest as Htest.
  split; [done|]. unfold y_true_labels. rewrite <- Htest.
  apply argmax_rows_one_hot. intros Hnil. rewrite Hnil in Hthree. simpl in Hthree. lia.
Qed.

(** X11: with three classes or more, encoding a test label that occurs
    among the training labels and decoding it again with [argmax] gives
    the place of the label in [encoder.classes_]: the name the report
    prints for it is the label itself. *)
Theorem labels_round_trip (df_sentiment y_train y_test : list string)
    (e : encoded) :
  encode df_sentiment y_train y_test = Ok e →
  3 ≤ num_classes e →
  ∃ labels, y_true_labels e = Ok labels
    ∧ length labels = length y_test
    ∧ ∀ k label, y_test !! k = Some label → label ∈ y_train →
        ∃ j, labels !! k = Some j ∧ target_name e j = Some label.
Proof.
  intros Hrun Hthree.
  destruct (decode_test_labels _ _ _ _ Hrun Hthree)
    as (_ & labels & Hlabels & Hlen & Hk).
  exists labels. split; [done|]. split; [done|].
  intros k label Hlabel Hseen. destruct (Hk k label Hlabel) as (j & Hj & Hmax).
  exists j. split; [done|].
  apply encode_Ok in Hrun as (_ & _ & _ & Hclasses & _).
  destruct (argmax_one_hot_seen (classes_ e) label) as (j' & Hj' & Hname).
  { rewrite Hclasses. by apply elem_of_unique. }
  unfold target_name. congruence.
Qed.

(** X12: with three classes or more, a test label that does not occur
    among the training labels is encoded as a row of zeros and decoded
    as label 0: it is counted, without an error, as the first class. *)
Theorem unseen_label_is_first_class (df_sentiment y_train y_test : list string)
    (e : encoded) :
  encode df_sentiment y_train y_test = Ok e →
  3 ≤ num_classes e →
  ∃ labels, y_true_labels e = Ok labels
    ∧ ∀ k label, y_test !! k = Some label → label ∉ y_train →
        y_test_encoded e !! k = Some (replicate (num_classes e) 0%Z)
        ∧ labels !! k = Some 0.
Proof.
  intros Hrun Hthree.
  destruct (decode_test_labels _ _ _ _ Hrun Hthree)
    as (Hrows & labels & Hlabels & Hlen & Hk).
  exists labels. split; [done|].
  intros k label Hlabel Hunseen. destruct (Hk k label Hlabel) as (j & Hj & Hmax).
  apply encode_Ok in Hrun as (_ & _ & _ & Hclasses & _).
  destruct (argmax_one_hot_unseen (classes_ e) label) as [Hzero Hrow].
  { intros Hnil. unfold num_classes in Hthree. rewrite Hnil in Hthree.
    simpl in Hthree. lia. }
  { rewrite Hclasses. by rewrite elem_of_unique. }
  split.
  - rewrite Hrows, list_lookup_fmap, Hlabel. simpl. by rewrite Hrow.
  - congruence.
Qed.

(** X13: the rows of [y_train_encoded] have as many columns as the
    network has outputs, [num_classes], unless the training labels have
    exactly two classes: then the rows have one column. *)
Theorem label_width (df_sentiment y_train y_test : list string) (e : encoded) :
  encode df_sentiment y_train y_test = Ok e →
  Forall (λ row, length row = if decide (num_classes e = 2) then 1
                              else num_classes e) (y_train_encoded e).
Proof.
  intros (_ & Htr & _ & Hclasses & Htrain & _)%encode_Ok.
  unfold num_classes. rewrite Hclasses.
  pose proof (unique_nonempty y_train Htr) as Hne.
  unfold transform, type_of_target in Htrain.
  rewrite <- length_unique in Htrain.
  destruct y_train as [|t tr]; [done|]. remember (t :: tr) as y eqn:Hy.
  clear Hy Htr.
  destruct (unique y) as [|c1 [|c2 [|c3 cs]]]; [done|..]; simpl in Htrain;
    injection Htrain as <-; apply Forall_fmap, Forall_forall;
    intros label _; simpl; [done..|].
  by rewrite length_one_hot.
Qed.

End label_facts.

(** Three classes in training; the test set has a label of its own. *)
Lemma labels_round_trip_witness :
  ∃ labels,
    Embedding.bind
      (Labels.encode ["Neutral"] ["Positive"; "Negative"; "Neutral"]
         ["Neutral"; "Positive"])
      Labels.y_true_labels = Embedding.Ok labels
    ∧ labels = [1; 2].
Proof.
  destruct (Labels.encode ["Neutral"] ["Positive"; "Negative"; "Neutral"]
              ["Neutral"; "Positive"]) as [e|] eqn:Hrun; [|done].
  destruct (labels_round_trip _ _ _ e Hrun) as (labels & Hlabels & _).
  - vm_compute in Hrun. injection Hrun as <-. vm_compute. lia.
  - exists labels. simpl. split; [done|].
    vm_compute in Hrun. injection Hrun as <-.
    vm_compute in Hlabels. congruence.
Defined.

Lemma unseen_label_is_first_class_witness :
  ∃ labels,
    Embedding.bind
      (Labels.encode ["Neutral"] ["Positive"; "Negative"; "Neutral"]
         ["Irrelevant"; "Positive"])
      Labels.y_true_labels = Embedding.Ok labels
    ∧ labels = [0; 2].
Proof.
  destruct (Labels.encode ["Neutral"] ["Positive"; "Negative"; "Neutral"]
              ["Irrelevant"; "Positive"]) as [e|] eqn:Hrun; [|done].
  destruct (unseen_label_is_first_class _ _ _ e Hrun) as (labels & Hlabels & _).
  - vm_compute in Hrun. injection Hrun as <-. vm_compute. lia.
  - exists labels. simpl. split; [done|].
    vm_compute in Hrun. injection Hrun as <-.
    vm_compute in Hlabels. congruence.
Defined.

(** Two classes in training: one column for two outputs. *)
Lemma label_width_witness :
  ∃ e, Labels.encode ["Positive"] ["Positive"; "Negative"] ["Positive"]
       = Embedding.Ok e
       ∧ Labels.num_classes e = 2
       ∧ Forall (λ row, length row = 1) (Labels.y_train_encoded e).
Proof.
  destruct (Labels.encode ["Positive"] ["Positive"; "Negative"] ["Positive"])
    as [e|] eqn:Hrun; [|done].
  pose proof (label_width _ _ _ e Hrun) as Hwidth.
  exists e. split; [done|].
  vm_compute in Hrun. injection Hrun as <-. split; [reflexivity|].
  exact Hwidth.
Defined.

Lemma encode_needs_samples_witness :
  Labels.encode ["Positive"] [] ["Positive"] = Embedding.Err Embedding.ValueError.
Proof.
  apply (proj1 (encode_needs_samples ["Positive"] [] ["Positive"])).
  right. by left.
Defined.

(* ===================================================================== *)
(** * Properties of the data preparation *)
(* ===================================================================== *)

Section frame_facts.
Import Embedding Frame.
Variable str_of_missing : option string.

Abbreviation astype_str := (Frame.astype_str str_of_missing).
Abbreviation prepare := (Frame.prepare str_of_missing).
Abbreviation prepared_row := (Frame.prepared_row str_of_missing).

(** X15: a loaded frame with fewer than four columns stops the cell
    with an [IndexError], at [df.columns[[2, 3]]]. *)
Theorem prepare_needs_four_columns (df : frame) :
  length (columns df) < 4 → prepare df = Err IndexError.
Proof.
  intros Hlen. unfold Frame.prepare. cbn [labels_at].
  destruct (columns df !! 2) as [c2|] eqn:H2; [|done].
  destruct (columns df !! 3) as [c3|] eqn:H3; [|done].
  apply lookup_lt_Some in H3. lia.
Qed.

Lemma positions_from_none start label cols :
  label ∉ cols → positions_from start label cols = [].
Proof.
  revert start. induction cols as [|c cols IH]; intros start Hnin; [done|].
  apply not_elem_of_cons in Hnin as [Hne Hnin]. simpl.
  destruct (String.eqb_spec c label) as [->|_]; [done|]. by apply IH.
Qed.

(** Among labels without repeats a label has one position. *)
Lemma positions_from_unique start label cols p :
  NoDup cols → cols !! p = Some label →
  positions_from start label cols = [start + p].
Proof.
  revert start p. induction cols as [|c cols IH]; intros start p Hnd Hp; [done|].
  apply NoDup_cons in Hnd as [Hc Hnd]. simpl. destruct p as [|p]; simpl in Hp.
  - injection Hp as ->. rewrite String.eqb_refl.
    rewrite positions_from_none by done. simpl. f_equal. lia.
  - destruct (String.eqb_spec c label) as [->|_].
    + destruct Hc. by eapply list_elem_of_lookup_2.
    + rewrite (IH (S start) p) by done. simpl. f_equal. lia.
Qed.

Lemma select_two df c2 c3 :
  NoDup (columns df) →
  columns df !! 2 = Some c2 → columns df !! 3 = Some c3 →
  select [c2; c3] df
  = Ok {| columns := [c2; c3]; rows := project [2; 3] <$> rows df |}.
Proof.
  intros Hnd H2 H3. unfold select. cbn [forallb].
  rewrite !bool_decide_eq_true_2 by (by eapply list_elem_of_lookup_2).
  cbn [andb flat_map]. unfold positions_of.
  rewrite (positions_from_unique 0 c2 _ 2), (positions_from_unique 0 c3 _ 3)
    by done.
  simpl. unfold project at 1. simpl. by rewrite H2, H3.
Qed.

(** An [astype(str)] assignment, row by row. *)
Lemma set_astype p (rws : list (list (option string))) :
  zip_with (λ row val, <[p := val]> row) rws
    (astype_str ((λ row : list (option string), mjoin (row !! p)) <$> rws))
  = (λ row, <[p := match mjoin (row !! p) with
                   | Some s => Some s
                   | None => str_of_missing
                   end]> row) <$> rws.
Proof.
  unfold Frame.astype_str.
  rewrite <- list_fmap_compose, zip_with_fmap_r, zip_with_diag. done.
Qed.

Lemma retyped_row (row : list (option string)) :
  4 ≤ length row →
  <[0 := match mjoin (<[1 := match mjoin (project [2; 3] row !! 1) with
                             | Some s => Some s
                             | None => str_of_missing
                             end]> (project [2; 3] row) !! 0) with
         | Some s => Some s
         | None => str_of_missing
         end]>
    (<[1 := match mjoin (project [2; 3] row !! 1) with
            | Some s => Some s
            | None => str_of_missing
            end]> (project [2; 3] row))
  = prepared_row row.
Proof.
  intros Hlen.
  destruct (lookup_lt_is_Some_2 row 2) as [a Ha]; [lia|].
  destruct (lookup_lt_is_Some_2 row 3) as [b Hb]; [lia|].
  unfold Frame.prepared_row, Frame.astype_str, project. simpl.
  rewrite Ha, Hb. done.
Qed.

Lemma filter_by_column (rws : list (list (option string))) value :
  fst <$> List.filter (λ rc, negb (bool_decide (rc.2 = Some value)))
            (zip rws ((λ row : list (option string), mjoin (row !! 0)) <$> rws))
  = List.filter
      (λ row, negb (bool_decide (row !! 0 = Some (Some value)))) rws.
Proof.
  induction rws as [|row rws IH]; [done|].
  rewrite fmap_cons. cbn [zip zip_with List.filter fst snd].
  assert (bool_decide (mjoin (row !! 0) = Some value)
          = bool_decide (row !! 0 = Some (Some value))) as ->.
  { apply bool_decide_ext. destruct (row !! 0) as [[?|]|]; simpl; naive_solver. }
  destruct (bool_decide (row !! 0 = Some (Some value))); simpl;
    [|f_equal]; apply IH.
Qed.

Lemma filter_filter {A} (p q : A → bool) l :
  List.filter q (List.filter p l) = List.filter (λ x, p x && q x) l.
Proof.
  induction l as [|x l IH]; [done|]. simpl.
  destruct (p x); simpl; [destruct (q x); simpl; by rewrite IH|done].
Qed.

Lemma prepare_rows (df : frame) :
  rectangular df → NoDup (columns df) → 4 ≤ length (columns df) →
  prepare df
  = Ok {| columns := ["sentiment"; "text"];
          rows := List.filter kept (prepared_row <$> rows df) |}.
Proof.
  intros Hrect Hnd Hlen. unfold Frame.prepare. cbn [labels_at].
  destruct (lookup_lt_is_Some_2 (columns df) 2) as [c2 H2]; [lia|].
  destruct (lookup_lt_is_Some_2 (columns df) 3) as [c3 H3]; [lia|].
  rewrite H2, H3. cbn [bind]. rewrite (select_two df c2 c3) by done.
  cbn [bind]. unfold rename. cbn [columns rows length].
  rewrite decide_True by done. cbn [bind].
  unfold column at 1. cbn [columns rows positions_of positions_from].
  cbn [String.eqb Ascii.eqb Bool.eqb app bind].
  unfold set_column at 1. cbn [columns rows positions_of positions_from].
  cbn [String.eqb Ascii.eqb Bool.eqb app].
  rewrite decide_True by (unfold Frame.astype_str; by rewrite !length_fmap).
  cbn [bind].
  unfold column at 1. cbn [columns rows positions_of positions_from].
  cbn [String.eqb Ascii.eqb Bool.eqb app bind].
  unfold set_column at 1. cbn [columns rows positions_of positions_from].
  cbn [String.eqb Ascii.eqb Bool.eqb app].
  rewrite decide_True
    by (unfold Frame.astype_str; rewrite !length_fmap, length_zip_with,
          !length_fmap; lia).
  cbn [bind].
  unfold drop_value, dropna, column. cbn [columns rows positions_of positions_from].
  cbn [String.eqb Ascii.eqb Bool.eqb app bind].
  rewrite filter_by_column, filter_filter. do 2 f_equal.
  rewrite !set_astype, <- !list_fmap_compose.
  apply (f_equal (List.filter kept)).
  apply Forall_fmap_ext_1. eapply Forall_impl; [exact Hrect|].
  intros row Hrow. simpl in Hrow. apply retyped_row. lia.
Qed.

Lemma kept_row (row : list (option string)) :
  kept (prepared_row row) = true →
  ∃ s t, prepared_row row = [Some s; Some t] ∧ s ≠ "Irrelevant".
Proof.
  unfold kept, Frame.prepared_row, Frame.astype_str. rewrite !fmap_cons.
  cbn [fmap list_fmap forallb lookup list_lookup].
  intros [Hsome Hlabel]%andb_true_iff.
  apply andb_true_iff in Hsome as [[s Hs]%bool_decide_eq_true Hsome].
  apply andb_true_iff in Hsome as [[t Ht]%bool_decide_eq_true _].
  rewrite Hs, Ht in *. exists s, t. split; [done|].
  apply negb_true_iff, bool_decide_eq_false in Hlabel. congruence.
Qed.

(** X16: a loaded frame of four columns or more, with labels that
    differ, is prepared without an error; the result has the columns
    [sentiment] and [text]; its rows are, in their order, the third and
    fourth cells (as text) of the loaded rows that have no missing cell
    then and are not labelled [Irrelevant]; so every row is a label
    other than [Irrelevant] and a text. *)
Theorem prepared_frame (df : frame) :
  rectangular df → NoDup (columns df) → 4 ≤ length (columns df) →
  ∃ df', prepare df = Ok df'
    ∧ columns df' = ["sentiment"; "text"]
    ∧ rows df' = List.filter kept (prepared_row <$> rows df)
    ∧ Forall (λ row, ∃ s t, row = [Some s; Some t] ∧ s ≠ "Irrelevant")
        (rows df').
Proof.
  intros Hrect Hnd Hlen. eexists. split; [by apply prepare_rows|].
  split; [done|]. split; [done|]. cbn [rows].
  apply Forall_forall. intros row Hrow.
  apply list_elem_of_In, filter_In in Hrow as [Hin Hkept].
  apply list_elem_of_In, list_elem_of_fmap in Hin as (row0 & -> & _).
  by apply kept_row.
Qed.

End frame_facts.

Lemma prepare_needs_four_columns_witness :
  Frame.prepare None {| Frame.columns := ["a"; "b"; "c"]; Frame.rows := [] |}
  = Embedding.Err Embedding.IndexError.
Proof. apply prepare_needs_four_columns. simpl. lia. Defined.

Lemma prepared_frame_witness :
  ∃ df', Frame.prepare None Frame.tweets = Embedding.Ok df'
    ∧ Frame.rows df'
      = [[Some "Neutral"; Some "fourth"]; [Some "Positive"; Some "fifth"]].
Proof.
  destruct (prepared_frame None Frame.tweets) as (df' & Hrun & _ & Hrows & _).
  - repeat constructor.
  - apply (bool_decide_unpack _). vm_compute. exact I.
  - simpl. lia.
  - exists df'. split; [done|]. rewrite Hrows. reflexivity.
Defined.

Section frame_text_facts.
Import Embedding Frame.

(** X17: where [astype(str)] turns a missing value into text, [dropna]
    finds nothing to drop: the prepared rows are the third and fourth
    cells of every loaded row that is not labelled [Irrelevant], a
    missing text among them, kept as that text. *)
Theorem missing_values_become_text (nan : string) (df : frame) :
  rectangular df → NoDup (columns df) → 4 ≤ length (columns df) →
  ∃ df', prepare (Some nan) df = Ok df'
    ∧ rows df'
      = List.filter
          (λ row, negb (bool_decide (row !! 0 = Some (Some "Irrelevant"))))
          (prepared_row (Some nan) <$> rows df).
Proof.
  intros Hrect Hnd Hlen. eexists. split; [by apply prepare_rows|]. cbn [rows].
  induction (rows df) as [|row rws IH]; [done|].
  rewrite fmap_cons. cbn [List.filter]. rewrite IH. unfold kept at 1.
  assert (forallb (λ c : option string, bool_decide (is_Some c))
            (prepared_row (Some nan) row) = true) as ->; [|done].
  unfold prepared_row, astype_str. rewrite !fmap_cons. cbn [forallb].
  destruct (mjoin (row !! 2)), (mjoin (row !! 3)); done.
Qed.

End frame_text_facts.

Lemma missing_values_become_text_witness :
  ∃ df', Frame.prepare (Some "nan") Frame.tweets = Embedding.Ok df'
    ∧ Frame.rows df'
      = [[Some "Negative"; Some "nan"]; [Some "Neutral"; Some "fourth"];
         [Some "Positive"; Some "fifth"]].
Proof.
  destruct (missing_values_become_text "nan" Frame.tweets)
    as (df' & Hrun & Hrows).
  - repeat constructor.
  - apply (bool_decide_unpack _). vm_compute. exact I.
  - simpl. lia.
  - exists df'. split; [done|]. rewrite Hrows. reflexivity.
Defined.

(* ===================================================================== *)
(** * Properties of the split *)
(* ===================================================================== *)

Section split_facts.
Import Embedding Frame Split.

Lemma pick_from {A} (l : list A) : ∀ pre,
  omap (λ i, (pre ++ l) !! i) (seq (length pre) (length l)) = l.
Proof.
  induction l as [|x l IH]; intros pre; [done|].
  cbn [length seq].
  change (omap ?f (?i :: ?rest))
    with (match f i with Some y => y :: omap f rest | None => omap f rest end).
  cbv beta. rewrite list_lookup_middle by done. f_equal.
  specialize (IH (pre ++ [x])). rewrite <- app_assoc, length_app in IH.
  simpl in IH. by rewrite Nat.add_1_r in IH.
Qed.

Lemma pick_all {A} (l : list A) : omap (λ i, l !! i) (seq 0 (length l)) = l.
Proof. apply (pick_from l []). Qed.

Lemma split_perm {A} (L : Seeding.random_lib) (g : Seeding.rng L)
    (rws : list A) :
  Seeding.permutation L g (length rws) ≡ₚ seq 0 (length rws) →
  (Seeding.train_test_split L g rws).1 ++ (Seeding.train_test_split L g rws).2
  ≡ₚ rws.
Proof.
  intros Hperm. unfold Seeding.train_test_split. cbn zeta. simpl.
  rewrite <- omap_app.
  rewrite (Permutation_app_comm (drop _ _) (take _ _)), take_drop.
  rewrite Hperm. by rewrite pick_all.
Qed.

Lemma length_pick {A} (l : list A) (positions : list nat) :
  Forall (λ i, i < length l) positions →
  length (omap (λ i, l !! i) positions) = length positions.
Proof.
  induction 1 as [|i positions Hi _ IH]; [done|].
  destruct (lookup_lt_is_Some_2 l i Hi) as [x Hx].
  change (omap ?f (i :: positions))
    with (match f i with Some y => y :: omap f positions
                       | None => omap f positions end).
  cbv beta. rewrite Hx. simpl. by rewrite IH.
Qed.

(** X18: if the library shuffles, the split stops with a [ValueError]
    when no row would be left for training, and otherwise divides the
    rows: every row goes to exactly one of the two parts, the test part
    has the number of rows the library computes for [test_size=0.2] and
    the training part the others, at least one. *)
Theorem split_divides_rows {A} (L : Seeding.random_lib) (g : Seeding.rng L)
    (rws : list A) :
  shuffles L →
  Seeding.test_rows L (length rws) ≤ length rws →
  (length rws - Seeding.test_rows L (length rws) = 0 →
     train_test_split L g rws = Err ValueError)
  ∧ (length rws - Seeding.test_rows L (length rws) ≠ 0 →
       ∃ train test, train_test_split L g rws = Ok (train, test)
         ∧ train ++ test ≡ₚ rws
         ∧ length test = Seeding.test_rows L (length rws)
         ∧ length train = length rws - Seeding.test_rows L (length rws)).
Proof.
  intros Hshuffle Htest. unfold train_test_split. cbn zeta. split.
  - intros Hz. by rewrite decide_True.
  - intros Hnz. rewrite decide_False by done.
    destruct (Seeding.train_test_split L g rws) as [train test] eqn:Hsplit.
    exists train, test. split; [done|].
    pose proof (split_perm L g rws (Hshuffle g _)) as Hperm.
    rewrite Hsplit in Hperm. simpl in Hperm. split; [done|].
    assert (length test = Seeding.test_rows L (length rws)) as Hlen.
    { unfold Seeding.train_test_split in Hsplit. cbn zeta in Hsplit.
      injection Hsplit as _ <-. rewrite length_pick.
      - rewrite length_take, (Permutation_length (Hshuffle g _)), length_seq. lia.
      - apply Forall_take. rewrite (Hshuffle g _). apply Forall_forall.
        intros i Hi%elem_of_seq. lia. }
    split; [done|]. apply Permutation_length in Hperm.
    rewrite length_app in Hperm. lia.
Qed.

(** ** The parts of a prepared frame *)

Lemma column_prepared label p cols (rws : list (list (option string))) :
  positions_of label cols = [p] →
  column label {| columns := cols; rows := rws |}
  = Ok ((λ row : list (option string), mjoin (row !! p)) <$> rws).
Proof. unfold column. simpl. by intros ->. Qed.

Lemma split_frame_parts (L : Seeding.random_lib) (ambient : Seeding.rng L)
    (df : frame) (p : parts) :
  shuffles L → columns df = ["sentiment"; "text"] →
  split_frame L ambient df = Ok p →
  ∃ train test, train ++ test ≡ₚ rows df ∧ train ≠ []
    ∧ x_train p = (λ row : list (option string), mjoin (row !! 1)) <$> train
    ∧ y_train p = (λ row : list (option string), mjoin (row !! 0)) <$> train
    ∧ x_test p = (λ row : list (option string), mjoin (row !! 1)) <$> test
    ∧ y_test p = (λ row : list (option string), mjoin (row !! 0)) <$> test.
Proof.
  intros Hshuffle Hcols. unfold split_frame. cbn zeta. rewrite Hcols.
  unfold train_test_split. cbn zeta. case_decide as Hn; [done|]. cbn [bind].
  set (g := Seeding.generator L ambient _).
  pose proof (split_perm L g (rows df) (Hshuffle g _)) as Hperm.
  destruct (Seeding.train_test_split L g (rows df)) as [train test] eqn:Hsplit.
  simpl in Hperm. cbn [fst snd].
  rewrite !(column_prepared "text" 1), !(column_prepared "sentiment" 0) by done.
  cbn [bind]. intros [= <-]. exists train, test. split; [done|].
  split; [|done]. intros ->.
  unfold Seeding.train_test_split in Hsplit. cbn zeta in Hsplit.
  injection Hsplit as Htrain _. apply (f_equal length) in Htrain.
  rewrite length_pick in Htrain.
  - rewrite length_drop, (Permutation_length (Hshuffle g _)), length_seq
      in Htrain. simpl in Htrain. lia.
  - apply Forall_drop. rewrite (Hshuffle g _). apply Forall_forall.
    intros i Hi%elem_of_seq. lia.
Qed.

Lemma prepared_columns (df : frame) :
  columns df = ["sentiment"; "text"] →
  column "text" df
  = Ok ((λ row : list (option string), mjoin (row !! 1)) <$> rows df)
  ∧ column "sentiment" df
    = Ok ((λ row : list (option string), mjoin (row !! 0)) <$> rows df).
Proof.
  intros Hcols. destruct df as [cols rws]. simpl in Hcols. subst cols.
  by rewrite (column_prepared "text" 1), (column_prepared "sentiment" 0).
Qed.

Lemma split_frame_columns (L : Seeding.random_lib) (ambient : Seeding.rng L)
    (df : frame) (p : parts) (df_text df_sentiment : list (option string)) :
  shuffles L → prepared df →
  column "text" df = Ok df_text →
  column "sentiment" df = Ok df_sentiment →
  split_frame L ambient df = Ok p →
  x_train p ++ x_test p ≡ₚ df_text ∧ y_train p ++ y_test p ≡ₚ df_sentiment.
Proof.
  intros Hshuffle [Hcols _] Htext Hsentiment Hsplit.
  destruct (prepared_columns df Hcols) as [Ht Hs].
  rewrite Ht in Htext. rewrite Hs in Hsentiment.
  injection Htext as <-. injection Hsentiment as <-.
  destruct (split_frame_parts L ambient df p Hshuffle Hcols Hsplit)
    as (train & test & Hperm & _ & -> & -> & -> & ->).
  by rewrite <- !fmap_app, Hperm.
Qed.

(** X19: on a prepared frame, if the library shuffles, cell 3 divides
    the frame without losing, repeating or mixing anything: the texts
    of the two parts together are the texts of the frame, the labels
    likewise, the k-th label of a part and its k-th text come from one
    row, and the training part is not empty. *)
Theorem split_frame_divides (L : Seeding.random_lib) (ambient : Seeding.rng L)
    (df : frame) (p : parts) (df_text df_sentiment : list (option string)) :
  shuffles L → prepared df →
  column "text" df = Ok df_text →
  column "sentiment" df = Ok df_sentiment →
  split_frame L ambient df = Ok p →
  x_train p ++ x_test p ≡ₚ df_text
  ∧ y_train p ++ y_test p ≡ₚ df_sentiment
  ∧ x_train p ≠ []
  ∧ (∀ k label text,
       (y_train p !! k = Some label ∧ x_train p !! k = Some text)
       ∨ (y_test p !! k = Some label ∧ x_test p !! k = Some text) →
       [label; text] ∈ rows df).
Proof.
  intros Hshuffle Hprep Htext Hsentiment Hsplit.
  destruct (split_frame_columns L ambient df p _ _ Hshuffle Hprep Htext
              Hsentiment Hsplit) as [Hx Hy].
  split; [done|]. split; [done|]. destruct Hprep as [Hcols Hrows].
  destruct (split_frame_parts L ambient df p Hshuffle Hcols Hsplit)
    as (train & test & Hperm & Hne & -> & -> & -> & ->).
  split; [by destruct train|].
  assert (∀ part k label text,
            part ⊆ rows df →
            ((λ row : list (option string), mjoin (row !! 0)) <$> part) !! k
            = Some label →
            ((λ row : list (option string), mjoin (row !! 1)) <$> part) !! k
            = Some text →
            [label; text] ∈ rows df) as Haligned.
  { intros part k label text Hsub Hl Ht'.
    rewrite list_lookup_fmap in Hl, Ht'.
    destruct (part !! k) as [row|] eqn:Hrow; [|done]. simpl in Hl, Ht'.
    assert (row ∈ rows df) as Hin
      by (apply Hsub; by eapply list_elem_of_lookup_2).
    pose proof (proj1 (Forall_forall _ _) Hrows row Hin)
      as (s & t & Hrow' & _).
    subst row. simpl in Hl, Ht'. by simplify_eq. }
  intros k label text [[Hl Ht']|[Hl Ht']].
  - apply (Haligned train k); [|done..].
    intros row Hrow. rewrite <- Hperm. apply elem_of_app. by left.
  - apply (Haligned test k); [|done..].
    intros row Hrow. rewrite <- Hperm. apply elem_of_app. by right.
Qed.

Lemma elem_of_texts (series : list (option string)) text :
  text ∈ texts series ↔ Some text ∈ series.
Proof.
  unfold texts. rewrite list_elem_of_omap. split.
  - intros (c & Hc & Hid). simpl in Hid. by subst.
  - intros Hin. by exists (Some text).
Qed.

Section with_tokenizer.
Variable words_of : string → list string.

(** X20: the texts of [x_train] and [x_test] are texts the tokenizer
    was fitted on, so none of them loses a word when it is turned into
    a sequence. *)
Theorem split_texts_keep_every_word (L : Seeding.random_lib)
    (ambient : Seeding.rng L) (df : frame) (p : parts)
    (df_text df_sentiment : list (option string)) (text : string) :
  shuffles L → prepared df →
  column "text" df = Ok df_text →
  column "sentiment" df = Ok df_sentiment →
  split_frame L ambient df = Ok p →
  text ∈ texts (x_train p) ++ texts (x_test p) →
  ∃ tokens,
    Tokenizer.texts_to_sequences words_of
      (Tokenizer.word_index words_of (texts df_text)) [text] = [tokens]
    ∧ length tokens = length (words_of text).
Proof.
  intros Hshuffle Hprep Htext Hsentiment Hsplit Hin.
  destruct (split_frame_columns L ambient df p _ _ Hshuffle Hprep Htext
              Hsentiment Hsplit) as [Hperm _].
  eexists. split; [reflexivity|].
  apply omap_total, fitted_text_words.
  apply elem_of_texts. rewrite <- Hperm.
  rewrite elem_of_app, !elem_of_texts in Hin. by apply elem_of_app.
Qed.
End with_tokenizer.

(** X21: the classes of the encoder are the labels of the training
    part alone, whatever the frame it was first fitted on holds: they
    are labels of the prepared frame, and [Irrelevant] is not one of
    them. *)
Theorem irrelevant_is_no_class (L : Seeding.random_lib)
    (ambient : Seeding.rng L) (df : frame) (p : parts)
    (df_text df_sentiment : list (option string)) (e : Labels.encoded) :
  shuffles L → prepared df →
  column "text" df = Ok df_text →
  column "sentiment" df = Ok df_sentiment →
  split_frame L ambient df = Ok p →
  Labels.encode (texts df_sentiment) (texts (y_train p)) (texts (y_test p))
  = Ok e →
  ("Irrelevant" ∉ Labels.classes_ e)
  ∧ (∀ label, label ∈ Labels.classes_ e ↔ Some label ∈ y_train p)
  ∧ (∀ label, label ∈ Labels.classes_ e → Some label ∈ df_sentiment).
Proof.
  intros Hshuffle Hprep Htext Hsentiment Hsplit Hrun.
  destruct (split_frame_columns L ambient df p _ _ Hshuffle Hprep Htext
              Hsentiment Hsplit) as [_ Hperm].
  apply encode_Ok in Hrun as (_ & _ & _ & -> & _).
  assert (∀ label, label ∈ Labels.unique (texts (y_train p)) ↔
            Some label ∈ y_train p) as Hclass.
  { intros label. by rewrite elem_of_unique, elem_of_texts. }
  assert (∀ label, label ∈ Labels.unique (texts (y_train p)) →
            Some label ∈ df_sentiment) as Hsub.
  { intros label Hin. rewrite <- Hperm. apply elem_of_app. left.
    by apply Hclass. }
  split; [|done]. intros Hin. apply Hsub in Hin.
  destruct Hprep as [Hcols Hrows].
  destruct (prepared_columns df Hcols) as [_ Hs]. rewrite Hs in Hsentiment.
  injection Hsentiment as <-.
  apply list_elem_of_fmap in Hin as (row & Hlabel & Hrow).
  pose proof (proj1 (Forall_forall _ _) Hrows row Hrow)
    as (s & t & Hrow' & Hne).
  subst row. simpl in Hlabel. congruence.
Qed.

End split_facts.

Lemma rotating_shuffles : Split.shuffles Seeding.rotating.
Proof.
  intros g n. simpl. unfold rotate. by rewrite Permutation_app_comm, take_drop.
Qed.

Lemma labelled_prepared : Split.prepared Split.labelled.
Proof.
  split; [done|]. unfold Split.labelled. cbn [Frame.rows].
  repeat (apply List.Forall_cons; [eexists _, _; split; [reflexivity|done]|]).
  apply List.Forall_nil.
Qed.

(** The six rows, rotated by one and divided into four and two. *)
Lemma split_frame_divides_witness :
  ∃ p df_text df_sentiment,
    Split.split_frame Seeding.rotating 1 Split.labelled = Embedding.Ok p
    ∧ Frame.column "text" Split.labelled = Embedding.Ok df_text
    ∧ Frame.column "sentiment" Split.labelled = Embedding.Ok df_sentiment
    ∧ Split.x_train p ++ Split.x_test p ≡ₚ df_text
    ∧ Split.y_train p ++ Split.y_test p ≡ₚ df_sentiment
    ∧ length (Split.x_train p) = 4.
Proof.
  eexists _, _, _.
  split; [vm_compute; reflexivity|].
  split; [vm_compute; reflexivity|].
  split; [vm_compute; reflexivity|].
  edestruct (split_frame_divides Seeding.rotating 1 Split.labelled)
    as (Hx & Hy & _);
    [exact rotating_shuffles | exact labelled_prepared
     | vm_compute; reflexivity | vm_compute; reflexivity
     | vm_compute; reflexivity |].
  split; [exact Hx|]. split; [exact Hy|]. reflexivity.
Defined.

(** The text of a training row of the six loses no word, with blanks
    dividing the words. *)
Lemma split_texts_keep_every_word_witness :
  ∃ tokens,
    Tokenizer.texts_to_sequences Tokenizer.blank_words
      (Tokenizer.word_index Tokenizer.blank_words
         ["so good"; "so bad"; "a game"; "good game"; "bad game"; "good"])
      ["bad game"] = [tokens]
    ∧ length tokens = 2.
Proof.
  edestruct (split_texts_keep_every_word Tokenizer.blank_words
               Seeding.rotating 1 Split.labelled) with (text := "bad game")
    as (tokens & Hrun & Hlen);
    [exact rotating_shuffles | exact labelled_prepared
     | vm_compute; reflexivity | vm_compute; reflexivity
     | vm_compute; reflexivity | |].
  - vm_compute. right. left.
  - exists tokens. split; [exact Hrun|]. exact Hlen.
Defined.

(** The classes of the six rows, fitted after the split: [Neutral] has
    gone to the test part, and is no class either. *)
Lemma irrelevant_is_no_class_witness :
  ∃ e,
    Labels.encode
      ["Positive"; "Negative"; "Neutral"; "Positive"; "Negative"; "Positive"]
      ["Positive"; "Negative"; "Positive"; "Positive"]
      ["Negative"; "Neutral"] = Embedding.Ok e
    ∧ "Irrelevant" ∉ Labels.classes_ e.
Proof.
  eexists. split; [vm_compute; reflexivity|].
  edestruct (irrelevant_is_no_class Seeding.rotating 1 Split.labelled)
    as (Hno & _);
    [exact rotating_shuffles | exact labelled_prepared
     | vm_compute; reflexivity | vm_compute; reflexivity
     | vm_compute; reflexivity | | exact Hno].
  vm_compute. reflexivity.
Defined.

(** Six rows, of which the rotating library takes two for testing. *)
Lemma split_divides_rows_witness :
  ∃ train test,
    Split.train_test_split Seeding.rotating 1 [10; 11; 12; 13; 14; 15]
    = Embedding.Ok (train, test)
    ∧ train ++ test ≡ₚ [10; 11; 12; 13; 14; 15]
    ∧ length test = 2.
Proof.
  destruct (split_divides_rows Seeding.rotating 1 [10; 11; 12; 13; 14; 15])
    as [_ H].
  - exact rotating_shuffles.
  - vm_compute. lia.
  - destruct H as (train & test & Hrun & Hperm & Hlen & _); [vm_compute; lia|].
    exists train, test. split; [done|]. split; [done|]. exact Hlen.
Defined.
